(** * Proof-Carrying Capabilities (csp_gateway.pccap): a shallow embedding

    The development follows [csp_gateway/pccap.py]: scope matching, the
    token and its canonical bytes, the keyring, the in-memory store, the
    enforcement function and the policy-engine adapter.

    Conventions of the embedding.
    - A Python [str] is a [string]; each character is one code point
      below 256.  [bytes] values are strings of bytes as well.
    - A timestamp (a Python float of seconds) is an exact integer [Z].
      Every reading of [time.time()] is an explicit argument.
    - The random bytes of [os.urandom] are explicit arguments.
    - HMAC-SHA256 is a parameter of the keyring section: a function from
      key and message to a 256-bit number.
    - [os.path] and [pathlib] are those of a POSIX host; the working
      directory read by [os.path.abspath] is an explicit argument [cwd].
    - A raised exception is the [Raise] case of [result].
    - The human-readable reason of a verdict is kept as data ([Reason]),
      not rendered to text. *)

From Stdlib Require Import ZArith Ascii String List Lia DecimalString.
From stdpp Require Import base decidable option list strings gmap.

Local Open Scope string_scope.
Local Open Scope Z_scope.

(** ** Exceptions *)

Inductive PyExn : Type :=
| TypeError
| ValueError
| IndexError.

Inductive result (A : Type) : Type :=
| Ok (a : A)
| Raise (e : PyExn).

Arguments Ok {A} a.
Arguments Raise {A} e.

Global Instance result_ret : MRet result := fun A a => Ok a.

Global Instance result_bind : MBind result := fun A B k m =>
  match m with
  | Ok a => k a
  | Raise e => Raise e
  end.

(** ** Python strings *)

Module PyStr.

Definition slash : ascii := "/"%char.

(** [s.split("/")] *)
Fixpoint split (s : string) : list string :=
  match s with
  | EmptyString => [EmptyString]
  | String c s' =>
      if Ascii.eqb c slash then EmptyString :: split s'
      else match split s' with
           | h :: t => String c h :: t
           | [] => [String c EmptyString]
           end
  end.

(** ["/".join(l)] *)
Fixpoint join (l : list string) : string :=
  match l with
  | [] => EmptyString
  | [x] => x
  | x :: rest => x ++ String slash (join rest)
  end.

(** [s.startswith(p)] *)
Fixpoint startswith (p s : string) : bool :=
  match p, s with
  | EmptyString, _ => true
  | String a p', String b s' => Ascii.eqb a b && startswith p' s'
  | String _ _, EmptyString => false
  end.

(** [s.endswith("/")] *)
Fixpoint endswith_slash (s : string) : bool :=
  match s with
  | EmptyString => false
  | String c EmptyString => Ascii.eqb c slash
  | String _ s' => endswith_slash s'
  end.

(** [c in s] for a character *)
Fixpoint contains (c : ascii) (s : string) : bool :=
  match s with
  | EmptyString => false
  | String a s' => Ascii.eqb a c || contains c s'
  end.

(** [s.rstrip("=")] *)
Fixpoint rstrip_eq (s : string) : string :=
  match s with
  | EmptyString => EmptyString
  | String c s' =>
      match rstrip_eq s' with
      | EmptyString => if Ascii.eqb c "="%char then EmptyString else String c EmptyString
      | r => String c r
      end
  end.

(** [x in l] for a list (or tuple) of strings *)
Definition mem (x : string) (l : list string) : bool :=
  existsb (String.eqb x) l.

(** The code point of a character. *)
Definition ord (c : ascii) : N := N_of_ascii c.

(** [len(s.encode())]: the UTF-8 length, one byte below 128 and two bytes
    for the code points 128..255. *)
Fixpoint utf8_len (s : string) : Z :=
  match s with
  | EmptyString => 0
  | String c s' => (if (ord c <? 128)%N then 1 else 2) + utf8_len s'
  end.

(** [str(n)] for an int *)
Definition of_Z (z : Z) : string := NilZero.string_of_int (Z.to_int z).

End PyStr.

(** ** Python values

    The argument values of a request or of [allowed_args]: the scalars,
    [bytes], and lists and tuples of ints. *)

Inductive PyVal : Type :=
| PyNone
| PyBool (b : bool)
| PyInt (z : Z)
| PyStr (s : string)
| PyBytes (b : string)
| PyList (l : list Z)
| PyTuple (l : list Z).

Module Py.

(** [bool(v)] *)
Definition truthy (v : PyVal) : bool :=
  match v with
  | PyNone => false
  | PyBool b => b
  | PyInt z => negb (z =? 0)
  | PyStr s => negb (String.eqb s "")
  | PyBytes b => negb (String.eqb b "")
  | PyList l => match l with [] => false | _ => true end
  | PyTuple l => match l with [] => false | _ => true end
  end.

(** [a or b] *)
Definition or (a b : PyVal) : PyVal := if truthy a then a else b.

Definition Z_of_bool (b : bool) : Z := if b then 1 else 0.

Fixpoint list_Z_eqb (l1 l2 : list Z) : bool :=
  match l1, l2 with
  | [], [] => true
  | x :: l1', y :: l2' => (x =? y) && list_Z_eqb l1' l2'
  | _, _ => false
  end.

(** [a == b]; a bool compares as the int 0 or 1. *)
Definition eqb (a b : PyVal) : bool :=
  match a, b with
  | PyNone, PyNone => true
  | PyBool x, PyBool y => Bool.eqb x y
  | PyBool x, PyInt y => Z_of_bool x =? y
  | PyInt x, PyBool y => x =? Z_of_bool y
  | PyInt x, PyInt y => x =? y
  | PyStr x, PyStr y => String.eqb x y
  | PyBytes x, PyBytes y => String.eqb x y
  | PyList x, PyList y => list_Z_eqb x y
  | PyTuple x, PyTuple y => list_Z_eqb x y
  | _, _ => false
  end.

Definition hex_digit (n : N) : ascii :=
  ascii_of_N (if (n <? 10)%N then 48 + n else 87 + n).

(** [repr(b)] for bytes: [b'...'], with double quotes when the value holds
    a single quote and no double quote. *)
Definition bytes_quote (b : string) : ascii :=
  if PyStr.contains "'"%char b && negb (PyStr.contains "034"%char b)
  then "034"%char else "'"%char.

Fixpoint bytes_body (q : ascii) (b : string) : string :=
  match b with
  | EmptyString => EmptyString
  | String c b' =>
      let n := PyStr.ord c in
      (if Ascii.eqb c q || Ascii.eqb c "\"%char then String "\"%char (String c "")
       else if (n =? 9)%N then "\t"
       else if (n =? 10)%N then "\n"
       else if (n =? 13)%N then "\r"
       else if (n <? 32)%N || (127 <=? n)%N
            then String "\"%char (String "x"%char
                   (String (hex_digit (n / 16)) (String (hex_digit (n mod 16)) "")))
       else String c "") ++ bytes_body q b'
  end.

Definition bytes_repr (b : string) : string :=
  let q := bytes_quote b in
  String "b"%char (String q (bytes_body q b ++ String q "")).

(** The items of a list or tuple display, separated by [sep]. *)
Fixpoint ints_sep (sep : string) (l : list Z) : string :=
  match l with
  | [] => ""
  | [x] => PyStr.of_Z x
  | x :: rest => PyStr.of_Z x ++ sep ++ ints_sep sep rest
  end.

(** [str(v)] *)
Definition str (v : PyVal) : string :=
  match v with
  | PyNone => "None"
  | PyBool b => if b then "True" else "False"
  | PyInt z => PyStr.of_Z z
  | PyStr s => s
  | PyBytes b => bytes_repr b
  | PyList l => "[" ++ ints_sep ", " l ++ "]"
  | PyTuple l =>
      match l with
      | [x] => "(" ++ PyStr.of_Z x ++ ",)"
      | _ => "(" ++ ints_sep ", " l ++ ")"
      end
  end.

End Py.

(** ** Python dicts with string keys

    An association list in insertion order; a key occurs at most once in a
    dict that was built with [set]. *)

Module Dict.

Section Dict.
Context {V : Type}.

Definition t : Type := list (string * V).

(** [d.get(k)] *)
Fixpoint get (k : string) (d : t) : option V :=
  match d with
  | [] => None
  | (k', v) :: d' => if String.eqb k k' then Some v else get k d'
  end.

(** [k in d] *)
Definition mem (k : string) (d : t) : bool :=
  match get k d with Some _ => true | None => false end.

(** [d[k] = v]: a present key keeps its position. *)
Fixpoint set (k : string) (v : V) (d : t) : t :=
  match d with
  | [] => [(k, v)]
  | (k', v') :: d' =>
      if String.eqb k k' then (k, v) :: d' else (k', v') :: set k v d'
  end.

(** [del d[k]] for a key that is present. *)
Fixpoint del (k : string) (d : t) : t :=
  match d with
  | [] => []
  | (k', v') :: d' =>
      if String.eqb k k' then del k d' else (k', v') :: del k d'
  end.

(** A dict holds each key once. *)
Definition wf (d : t) : Prop := NoDup (List.map fst d).

End Dict.

Arguments t V : clear implicits.

End Dict.

(** [arguments.get(k)], with [None] for an absent key. *)
Definition arg_get (k : string) (arguments : Dict.t PyVal) : PyVal :=
  match Dict.get k arguments with
  | Some v => v
  | None => PyNone
  end.

(** ** posixpath and pathlib

    The functions of the standard library that [matches_request] calls, on
    a POSIX host.  [cwd] is the reading of [os.getcwd()]. *)

Module PosixPath.

Definition isabs (s : string) : bool := PyStr.startswith "/" s.

(** [os.path.join(a, b)] *)
Definition join (a b : string) : string :=
  if PyStr.startswith "/" b then b
  else if String.eqb a "" || PyStr.endswith_slash a then a ++ b
  else a ++ "/" ++ b.

(** One or two initial slashes are kept, three or more count as one. *)
Definition initial_slashes (path : string) : nat :=
  if PyStr.startswith "/" path then
    if PyStr.startswith "//" path && negb (PyStr.startswith "///" path)
    then 2%nat else 1%nat
  else 0%nat.

Definition slashes (n : nat) : string :=
  match n with
  | O => ""
  | S O => "/"
  | _ => "//"
  end.

(** The loop of [normpath] over the split components.  [new_comps] is
    held last element first: [comp :: new_comps] is [append], the tail of
    the list is [pop]. *)
Fixpoint normpath_loop (initial : nat) (comps new_comps : list string)
  : list string :=
  match comps with
  | [] => rev new_comps
  | comp :: rest =>
      if String.eqb comp "" || String.eqb comp "." then
        normpath_loop initial rest new_comps
      else if negb (String.eqb comp "..")
              || (Nat.eqb initial 0 && match new_comps with [] => true | _ => false end)
              || match new_comps with last :: _ => String.eqb last ".." | [] => false end
      then normpath_loop initial rest (comp :: new_comps)
      else match new_comps with
           | _ :: popped => normpath_loop initial rest popped
           | [] => normpath_loop initial rest []
           end
  end.

(** [os.path.normpath(path)] *)
Definition normpath (path : string) : string :=
  if String.eqb path "" then "."
  else
    let initial := initial_slashes path in
    let comps := normpath_loop initial (PyStr.split path) [] in
    let path' := slashes initial ++ PyStr.join comps in
    if String.eqb path' "" then "." else path'.

(** [os.path.abspath(path)] *)
Definition abspath (cwd path : string) : string :=
  normpath (if isabs path then path else join cwd path).

(** [a < b] on lists of strings *)
Fixpoint list_ltb (a b : list string) : bool :=
  match a, b with
  | [], [] => false
  | [], _ :: _ => true
  | _ :: _, [] => false
  | x :: a', y :: b' =>
      match String.compare x y with
      | Lt => true
      | Gt => false
      | Eq => list_ltb a' b'
      end
  end.

(** [min([a, b])] and [max([a, b])]: the first of two equal items. *)
Definition min2 (a b : list string) : list string := if list_ltb b a then b else a.
Definition max2 (a b : list string) : list string := if list_ltb a b then b else a.

(** The loop of [commonpath]: [s1[:i]] at the first [i] with
    [s1[i] != s2[i]], all of [s1] when there is none. *)
Fixpoint common_loop (s1 s2 : list string) : result (list string) :=
  match s1 with
  | [] => Ok []
  | c :: s1' =>
      match s2 with
      | [] => Raise IndexError
      | c2 :: s2' =>
          if String.eqb c c2 then
            match common_loop s1' s2' with
            | Ok l => Ok (c :: l)
            | Raise e => Raise e
            end
          else Ok []
      end
  end.

Definition keep_comp (c : string) : bool :=
  negb (String.eqb c "") && negb (String.eqb c ".").

(** [os.path.commonpath([p1, p2])] *)
Definition commonpath (p1 p2 : string) : result string :=
  if Bool.eqb (isabs p1) (isabs p2) then
    let sp1 := List.filter keep_comp (PyStr.split p1) in
    let sp2 := List.filter keep_comp (PyStr.split p2) in
    common ← common_loop (min2 sp1 sp2) (max2 sp1 sp2);
    Ok ((if isabs p1 then "/" else "") ++ PyStr.join common)
  else Raise ValueError.

(** [posixpath.splitroot(p)]: the root and the rest. *)
Definition splitroot (p : string) : string * string :=
  match p with
  | String "/" p1 =>
      match p1 with
      | String "/" p2 =>
          match p2 with
          | String "/" _ => ("/", p1)
          | _ => ("//", p2)
          end
      | _ => ("/", p1)
      end
  | _ => ("", p)
  end.

(** [PurePath(p).parts]: the root, if any, then the components that are
    neither empty nor [.]. *)
Definition parts (p : string) : list string :=
  let '(root, rel) := splitroot p in
  (if String.eqb root "" then [] else [root])
    ++ List.filter keep_comp (PyStr.split rel).

End PosixPath.

(** ** Scope *)

Record PCCapScope : Type := {
  tool_name : string;
  allowed_args : Dict.t PyVal;
  path_prefix : option string;
  max_bytes : option Z;
}.

(** What a rejection reports; the text of the message is not rendered. *)
Inductive Reason : Type :=
| ToolMismatch (requested own : string)
| PathTraversal (path_text : string)
| NotUnderPrefix (path_text prefix : string)
| ExceedsMaxBytes (bound : Z)
| ArgMismatch (key : string) (actual expected : PyVal).

(** The value that [matches_request] binds to [path]. *)
Definition path_argument (arguments : Dict.t PyVal) : PyVal :=
  Py.or (Py.or (arg_get "path" arguments) (arg_get "file_path" arguments))
        (arg_get "target" arguments).

(** The checks on a selected path value against [prefix]; [None] when they
    pass.  A [ValueError] of the resolution is a rejection. *)
Definition check_path (cwd prefix : string) (path : PyVal)
  : result (option Reason) :=
  let path_text := Py.str path in
  if PyStr.mem ".." (PosixPath.parts path_text) then
    Ok (Some (PathTraversal path_text))
  else
    let normalized := PosixPath.normpath path_text in
    if PyStr.mem ".." (PosixPath.parts normalized) then
      Ok (Some (PathTraversal path_text))
    else
      let requested_abs := PosixPath.abspath cwd normalized in
      let allowed_abs := PosixPath.abspath cwd (PosixPath.normpath prefix) in
      match PosixPath.commonpath requested_abs allowed_abs with
      | Ok common =>
          if String.eqb common allowed_abs then Ok None
          else Ok (Some (NotUnderPrefix path_text prefix))
      | Raise ValueError => Ok (Some (NotUnderPrefix path_text prefix))
      | Raise e => Raise e
      end.

(** The path-prefix block of [matches_request]. *)
Definition check_path_prefix (cwd : string) (self : PCCapScope)
    (arguments : Dict.t PyVal) : result (option Reason) :=
  match path_prefix self with
  | None => Ok None
  | Some prefix =>
      let path := path_argument arguments in
      if Py.truthy path then check_path cwd prefix path else Ok None
  end.

(** The [max_bytes] block. *)
Definition check_max_bytes (self : PCCapScope) (arguments : Dict.t PyVal)
  : option Reason :=
  match max_bytes self with
  | None => None
  | Some bound =>
      match Py.or (arg_get "content" arguments) (arg_get "data" arguments) with
      | PyNone => None
      | content =>
          let size_bytes :=
            match content with
            | PyBytes b => Z.of_nat (String.length b)
            | other => PyStr.utf8_len (Py.str other)
            end in
          if bound <? size_bytes then Some (ExceedsMaxBytes bound) else None
      end
  end.

(** The loop over [allowed_args.items()]. *)
Fixpoint check_allowed_args (items : Dict.t PyVal) (arguments : Dict.t PyVal)
  : option Reason :=
  match items with
  | [] => None
  | (key, expected) :: rest =>
      let actual := arg_get key arguments in
      if negb (Py.eqb actual expected) then Some (ArgMismatch key actual expected)
      else check_allowed_args rest arguments
  end.

(** [PCCapScope.matches_request] *)
Definition matches_request (cwd : string) (self : PCCapScope)
    (tool : string) (arguments : Dict.t PyVal)
  : result (bool * option Reason) :=
  if negb (String.eqb tool (tool_name self)) then
    Ok (false, Some (ToolMismatch tool (tool_name self)))
  else
    r ← check_path_prefix cwd self arguments;
    match r with
    | Some why => Ok (false, Some why)
    | None =>
        match check_max_bytes self arguments with
        | Some why => Ok (false, Some why)
        | None =>
            match check_allowed_args (allowed_args self) arguments with
            | Some why => Ok (false, Some why)
            | None => Ok (true, None)
            end
        end
    end.


(** ** JSON and base64 *)

Module Json.

Definition dquote : string := String "034"%char "".

Definition hex4 (n : N) : string :=
  String "0"%char (String "0"%char
    (String (Py.hex_digit (n / 16)) (String (Py.hex_digit (n mod 16)) ""))).

(** One character of a JSON string with [ensure_ascii]. *)
Definition escape_char (c : ascii) : string :=
  let n := PyStr.ord c in
  if (n =? 34)%N then "\" ++ dquote
  else if (n =? 92)%N then "\\"
  else if (n =? 10)%N then "\n"
  else if (n =? 13)%N then "\r"
  else if (n =? 9)%N then "\t"
  else if (n =? 8)%N then "\b"
  else if (n =? 12)%N then "\f"
  else if (n <? 32)%N || (126 <? n)%N then "\u" ++ hex4 n
  else String c "".

Fixpoint escape (s : string) : string :=
  match s with
  | EmptyString => EmptyString
  | String c s' => escape_char c ++ escape s'
  end.

Definition of_str (s : string) : string := dquote ++ escape s ++ dquote.

Definition of_opt_str (o : option string) : string :=
  match o with Some s => of_str s | None => "null" end.

Definition of_opt_int (o : option Z) : string :=
  match o with Some z => PyStr.of_Z z | None => "null" end.

Definition of_bool (b : bool) : string := if b then "true" else "false".

(** [json.dumps(v)] with the separators [(",", ":")]; bytes are not
    serializable.  A list and a tuple both give an array. *)
Definition of_val (v : PyVal) : result string :=
  match v with
  | PyNone => Ok "null"
  | PyBool b => Ok (of_bool b)
  | PyInt z => Ok (PyStr.of_Z z)
  | PyStr s => Ok (of_str s)
  | PyBytes _ => Raise TypeError
  | PyList l => Ok ("[" ++ Py.ints_sep "," l ++ "]")
  | PyTuple l => Ok ("[" ++ Py.ints_sep "," l ++ "]")
  end.

(** [sorted(d.items())] for [sort_keys]: insertion by key. *)
Fixpoint insert_sorted (kv : string * PyVal) (l : list (string * PyVal))
  : list (string * PyVal) :=
  match l with
  | [] => [kv]
  | kv' :: l' =>
      if String.ltb (fst kv') (fst kv) || String.eqb (fst kv') (fst kv)
      then kv' :: insert_sorted kv l'
      else kv :: l
  end.

Definition sort_items (d : Dict.t PyVal) : list (string * PyVal) :=
  fold_left (fun acc kv => insert_sorted kv acc) d [].

Fixpoint of_items (l : list (string * PyVal)) : result string :=
  match l with
  | [] => Ok ""
  | (k, v) :: rest =>
      jv ← of_val v;
      jrest ← of_items rest;
      Ok (of_str k ++ ":" ++ jv
            ++ match rest with [] => "" | _ => "," ++ jrest end)
  end.

(** A dict of argument values with sorted keys. *)
Definition of_dict (d : Dict.t PyVal) : result string :=
  body ← of_items (sort_items d);
  Ok ("{" ++ body ++ "}").

End Json.

Module Base64.

Definition alphabet (n : N) : ascii :=
  ascii_of_N
    (if (n <? 26)%N then 65 + n
     else if (n <? 52)%N then 97 + (n - 26)
     else if (n <? 62)%N then 48 + (n - 52)
     else if (n =? 62)%N then 43
     else 47).

(** [base64.b64encode(s).decode()] *)
Fixpoint b64encode (s : string) : string :=
  match s with
  | EmptyString => EmptyString
  | String a EmptyString =>
      let n := (PyStr.ord a * 65536)%N in
      String (alphabet (n / 262144)) (String (alphabet ((n / 4096) mod 64)) "==")
  | String a (String b EmptyString) =>
      let n := (PyStr.ord a * 65536 + PyStr.ord b * 256)%N in
      String (alphabet (n / 262144)) (String (alphabet ((n / 4096) mod 64))
        (String (alphabet ((n / 64) mod 64)) "="))
  | String a (String b (String c rest)) =>
      let n := (PyStr.ord a * 65536 + PyStr.ord b * 256 + PyStr.ord c)%N in
      String (alphabet (n / 262144)) (String (alphabet ((n / 4096) mod 64))
        (String (alphabet ((n / 64) mod 64)) (String (alphabet (n mod 64))
          (b64encode rest))))
  end.

End Base64.

(** ** Token *)

(** Modelled from the spec: the [Principal] of the host gateway
    ([assay_gateway.types]), a subject identifier and an actor
    classification. *)
Record Principal : Type := {
  sub : string;
  actor_type : string;
}.

Inductive SignatureAlgorithm : Type :=
| HMAC_SHA256
| ED25519.

Definition algorithm_value (a : SignatureAlgorithm) : string :=
  match a with
  | HMAC_SHA256 => "HS256"
  | ED25519 => "Ed25519"
  end.

Record PCCapToken : Type := {
  token_id : string;
  principal_sub : string;
  scope : PCCapScope;
  issued_at : Z;
  expires_at : Z;
  issued_by : string;
  policy_id : option string;
  single_use : bool;
  nonce : option string;
  signature : option string;
  algorithm : SignatureAlgorithm;
}.

(** [token.signature = s] *)
Definition set_signature (t : PCCapToken) (s : option string) : PCCapToken :=
  {| token_id := token_id t; principal_sub := principal_sub t;
     scope := scope t; issued_at := issued_at t; expires_at := expires_at t;
     issued_by := issued_by t; policy_id := policy_id t;
     single_use := single_use t; nonce := nonce t;
     signature := s; algorithm := algorithm t |}.

(** [PCCapToken.is_expired(now)] *)
Definition is_expired (t : PCCapToken) (now : Z) : bool :=
  now >=? expires_at t.

(** [json.dumps(scope.to_dict(), sort_keys=True, separators=(",", ":"))] *)
Definition scope_json (s : PCCapScope) : result string :=
  args ← Json.of_dict (allowed_args s);
  Ok ("{" ++ Json.of_str "allowed_args" ++ ":" ++ args
      ++ "," ++ Json.of_str "max_bytes" ++ ":" ++ Json.of_opt_int (max_bytes s)
      ++ "," ++ Json.of_str "path_prefix" ++ ":" ++ Json.of_opt_str (path_prefix s)
      ++ "," ++ Json.of_str "tool_name" ++ ":" ++ Json.of_str (tool_name s)
      ++ "}").

(** [PCCapToken.canonical_bytes]: the JSON of [to_dict] without the
    signature, keys sorted, no whitespace. *)
Definition canonical_bytes (t : PCCapToken) : result string :=
  sc ← scope_json (scope t);
  Ok ("{" ++ Json.of_str "algorithm" ++ ":" ++ Json.of_str (algorithm_value (algorithm t))
      ++ "," ++ Json.of_str "expires_at" ++ ":" ++ PyStr.of_Z (expires_at t)
      ++ "," ++ Json.of_str "issued_at" ++ ":" ++ PyStr.of_Z (issued_at t)
      ++ "," ++ Json.of_str "issued_by" ++ ":" ++ Json.of_str (issued_by t)
      ++ "," ++ Json.of_str "nonce" ++ ":" ++ Json.of_opt_str (nonce t)
      ++ "," ++ Json.of_str "policy_id" ++ ":" ++ Json.of_opt_str (policy_id t)
      ++ "," ++ Json.of_str "principal_sub" ++ ":" ++ Json.of_str (principal_sub t)
      ++ "," ++ Json.of_str "scope" ++ ":" ++ sc
      ++ "," ++ Json.of_str "single_use" ++ ":" ++ Json.of_bool (single_use t)
      ++ "," ++ Json.of_str "token_id" ++ ":" ++ Json.of_str (token_id t)
      ++ "}").

(** ** Store *)

Module PCCapStore.

Record state : Type := {
  _tokens : Dict.t PCCapToken;
  _used_tokens : gset string;
}.

Definition empty : state := {| _tokens := []; _used_tokens := ∅ |}.

(** [store(token)] *)
Definition store (token : PCCapToken) (self : state) : state :=
  {| _tokens := Dict.set (token_id token) token (_tokens self);
     _used_tokens := _used_tokens self |}.

(** [get(token_id)] *)
Definition get (tid : string) (self : state) : option PCCapToken :=
  Dict.get tid (_tokens self).

(** [revoke(token_id)] *)
Definition revoke (tid : string) (self : state) : bool * state :=
  if Dict.mem tid (_tokens self) then
    (true, {| _tokens := Dict.del tid (_tokens self);
              _used_tokens := _used_tokens self ∖ {[tid]} |})
  else (false, self).

(** [mark_used(token_id)] *)
Definition mark_used (tid : string) (self : state) : bool * state :=
  if bool_decide (tid ∈ _used_tokens self) then (false, self)
  else (true, {| _tokens := _tokens self;
                 _used_tokens := _used_tokens self ∪ {[tid]} |}).

(** [is_used(token_id)] *)
Definition is_used (tid : string) (self : state) : bool :=
  bool_decide (tid ∈ _used_tokens self).

(** The ids that [cleanup_expired] collects. *)
Definition expired_ids (now : Z) (self : state) : list string :=
  List.map fst
    (List.filter (fun kv : string * PCCapToken => is_expired (snd kv) now)
                 (_tokens self)).

(** One turn of the loop of [cleanup_expired]. *)
Definition drop (self : state) (tid : string) : state :=
  {| _tokens := Dict.del tid (_tokens self);
     _used_tokens := _used_tokens self ∖ {[tid]} |}.

(** [cleanup_expired(now)] *)
Definition cleanup_expired (now : Z) (self : state) : Z * state :=
  let expired := expired_ids now self in
  (Z.of_nat (List.length expired), fold_left drop expired self).

(** [list_for_principal(principal_sub)], [now] its reading of the clock. *)
Definition list_for_principal (now : Z) (principal_sub' : string)
    (self : state) : list PCCapToken :=
  List.filter
    (fun t => String.eqb (principal_sub t) principal_sub'
              && negb (is_expired t now)
              && negb (is_used (token_id t) self))
    (List.map snd (_tokens self)).

End PCCapStore.

(** ** Keyring, minting, enforcement and the policy engine

    [hmac_sha256 key msg] stands for
    [hmac.new(key, msg, hashlib.sha256).digest()] read as a big-endian
    number; the digest is its 32 bytes. *)

Section Keyring.

Variable hmac_sha256 : string -> string -> N.

Record Keyring : Type := {
  _secret : string;
}.

(** [Keyring(secret_key)]; [urandom32] is the reading of [os.urandom(32)]. *)
Definition Keyring_init (secret_key : option string) (urandom32 : string)
  : Keyring :=
  match secret_key with
  | Some k => if String.eqb k "" then {| _secret := urandom32 |}
              else {| _secret := k |}
  | None => {| _secret := urandom32 |}
  end.

(** The [len] low bytes of [n], most significant first. *)
Fixpoint bytes_of_N (len : nat) (n : N) : string :=
  match len with
  | O => EmptyString
  | S len' => bytes_of_N len' (n / 256) ++ String (ascii_of_N (n mod 256)) ""
  end.

Definition digest (key msg : string) : string :=
  bytes_of_N 32 (hmac_sha256 key msg).

(** [Keyring.sign] *)
Definition sign (self : Keyring) (token : PCCapToken) : result string :=
  msg ← canonical_bytes token;
  Ok (Base64.b64encode (digest (_secret self) msg)).

Fixpoint is_ascii (s : string) : bool :=
  match s with
  | EmptyString => true
  | String c s' => (PyStr.ord c <? 128)%N && is_ascii s'
  end.

(** [hmac.compare_digest(a, b)] on two [str]: a [TypeError] unless both
    are ASCII. *)
Definition compare_digest (a b : string) : result bool :=
  if is_ascii a && is_ascii b then Ok (String.eqb a b) else Raise TypeError.

(** [Keyring.verify] *)
Definition verify (self : Keyring) (token : PCCapToken) : result bool :=
  match signature token with
  | None => Ok false
  | Some s =>
      if String.eqb s "" then Ok false
      else
        expected ← sign self token;
        compare_digest s expected
  end.

(** [generate_token_id()], [urandom12] the reading of [os.urandom(12)]. *)
Definition generate_token_id (urandom12 : string) : string :=
  "pccap_" ++ PyStr.rstrip_eq (Base64.b64encode urandom12).

(** [mint_pccap]; [now] is the reading of [time.time()], [rand_id] and
    [rand_nonce] the two readings of [os.urandom(12)]. *)
Definition mint_pccap (now : Z) (rand_id rand_nonce : string)
    (principal : Principal) (scope' : PCCapScope) (issued_by' : string)
    (keyring : Keyring) (ttl_seconds : Z) (policy_id' : option string)
    (single_use' : bool) : result PCCapToken :=
  let token :=
    {| token_id := generate_token_id rand_id;
       principal_sub := sub principal;
       scope := scope';
       issued_at := now;
       expires_at := now + ttl_seconds;
       issued_by := issued_by';
       policy_id := policy_id';
       single_use := single_use';
       nonce := Some (PyStr.rstrip_eq (Base64.b64encode rand_nonce));
       signature := None;
       algorithm := HMAC_SHA256 |} in
  sig ← sign keyring token;
  Ok (set_signature token (Some sig)).


Inductive ReasonCodePCCap : Type :=
| DENY_PCCAP_EXPIRED
| DENY_PCCAP_SCOPE_MISMATCH
| DENY_PCCAP_SIGNATURE_INVALID
| DENY_PCCAP_PRINCIPAL_MISMATCH
| DENY_PCCAP_REPLAY
| ALLOW_PCCAP_VALID.

Definition code_value (c : ReasonCodePCCap) : string :=
  match c with
  | DENY_PCCAP_EXPIRED => "DENY_PCCAP_EXPIRED"
  | DENY_PCCAP_SCOPE_MISMATCH => "DENY_PCCAP_SCOPE_MISMATCH"
  | DENY_PCCAP_SIGNATURE_INVALID => "DENY_PCCAP_SIGNATURE_INVALID"
  | DENY_PCCAP_PRINCIPAL_MISMATCH => "DENY_PCCAP_PRINCIPAL_MISMATCH"
  | DENY_PCCAP_REPLAY => "DENY_PCCAP_REPLAY"
  | ALLOW_PCCAP_VALID => "ALLOW_PCCAP_VALID"
  end.

(** What a verdict reports; the text of the message is not rendered. *)
Inductive Message : Type :=
| MsgExpired (tid : string) (expires : Z)
| MsgInvalidSignature (tid : string)
| MsgWrongPrincipal (token_sub request_sub : string)
| MsgScopeMismatch (why : option Reason)
| MsgValid (tid tool : string)
| MsgAlreadyUsed (tid : string)
| MsgNoToken (tool : string)
| MsgNotFound (tid : string).

(** [enforce_pccap]; [now] is the reading of the clock by [is_expired()]. *)
Definition enforce_pccap (now : Z) (cwd : string) (principal : Principal)
    (tool : string) (arguments : Dict.t PyVal) (token : PCCapToken)
    (keyring : Keyring) : result (bool * Message * ReasonCodePCCap) :=
  if is_expired token now then
    Ok (false, MsgExpired (token_id token) (expires_at token), DENY_PCCAP_EXPIRED)
  else
    valid ← verify keyring token;
    if negb valid then
      Ok (false, MsgInvalidSignature (token_id token), DENY_PCCAP_SIGNATURE_INVALID)
    else if negb (String.eqb (principal_sub token) (sub principal)) then
      Ok (false, MsgWrongPrincipal (principal_sub token) (sub principal),
          DENY_PCCAP_PRINCIPAL_MISMATCH)
    else
      m ← matches_request cwd (scope token) tool arguments;
      if negb (fst m) then
        Ok (false, MsgScopeMismatch (snd m), DENY_PCCAP_SCOPE_MISMATCH)
      else
        Ok (true, MsgValid (token_id token) tool, ALLOW_PCCAP_VALID).

(** [enforce_pccap_for_fs_delete] *)
Definition enforce_pccap_for_fs_delete (now : Z) (cwd : string)
    (principal : Principal) (path : string) (token : PCCapToken)
    (keyring : Keyring) : result (bool * Message * ReasonCodePCCap) :=
  enforce_pccap now cwd principal "fs.delete" [("path", PyStr path)] token keyring.

(** *** The policy engine *)

Record PCCapPolicyEngine : Type := {
  _keyring : Keyring;
  _store : PCCapStore.state;
}.

(** [PCCapPolicyEngine(keyring, store)] *)
Definition PCCapPolicyEngine_init (keyring : Keyring)
    (store : option PCCapStore.state) : PCCapPolicyEngine :=
  {| _keyring := keyring;
     _store := match store with Some s => s | None => PCCapStore.empty end |}.

Definition with_store (self : PCCapPolicyEngine) (store : PCCapStore.state)
  : PCCapPolicyEngine :=
  {| _keyring := _keyring self; _store := store |}.

(** [PCCapPolicyEngine.mint] *)
Definition mint (now : Z) (rand_id rand_nonce : string)
    (self : PCCapPolicyEngine) (principal : Principal) (scope' : PCCapScope)
    (issued_by' : string) (ttl_seconds : Z) (policy_id' : option string)
    (single_use' : bool) : result (PCCapToken * PCCapPolicyEngine) :=
  token ← mint_pccap now rand_id rand_nonce principal scope' issued_by'
            (_keyring self) ttl_seconds policy_id' single_use';
  Ok (token, with_store self (PCCapStore.store token (_store self))).

Definition Verdict : Type := bool * Message * string.

Definition replay (tid : string) : Verdict :=
  (false, MsgAlreadyUsed tid, code_value DENY_PCCAP_REPLAY).

(** The end of an evaluation, after [enforce_pccap] returned [r] for
    [token]: a single-use token that was allowed is marked used, and the
    verdict is a replay when [mark_used] fails. *)
Definition consume (store : PCCapStore.state) (token : PCCapToken)
    (r : bool * Message * ReasonCodePCCap) : Verdict * PCCapStore.state :=
  let '(allowed, reason, code) := r in
  if allowed && single_use token then
    let '(fresh, store') := PCCapStore.mark_used (token_id token) store in
    if negb fresh then (replay (token_id token), store')
    else ((allowed, reason, code_value code), store')
  else ((allowed, reason, code_value code), store).

(** The loop of [evaluate_with_pccap] over the tokens of the principal.
    [clock k] is the [k]-th reading of [time.time()] of the call. *)
Fixpoint discover (clock : nat -> Z) (k : nat) (cwd : string)
    (keyring : Keyring) (store : PCCapStore.state) (principal : Principal)
    (tool : string) (arguments : Dict.t PyVal) (tokens : list PCCapToken)
  : result (Verdict * PCCapStore.state) :=
  match tokens with
  | [] => Ok ((false, MsgNoToken tool, "DENY_NO_PCCAP"), store)
  | t :: rest =>
      if single_use t && PCCapStore.is_used (token_id t) store then
        discover clock k cwd keyring store principal tool arguments rest
      else
        m ← matches_request cwd (scope t) tool arguments;
        if fst (m : bool * option Reason) then
          if single_use t && PCCapStore.is_used (token_id t) store then
            Ok (replay (token_id t), store)
          else
            r ← enforce_pccap (clock k) cwd principal tool arguments t keyring;
            if fst (fst (r : bool * Message * ReasonCodePCCap)) then Ok (consume store t r)
            else discover clock (S k) cwd keyring store principal tool arguments rest
        else discover clock k cwd keyring store principal tool arguments rest
  end.

(** [not token_id] *)
Definition no_token_id (tid : option string) : bool :=
  match tid with
  | None => true
  | Some s => String.eqb s ""
  end.

(** [PCCapPolicyEngine.evaluate_with_pccap] *)
Definition evaluate_with_pccap (clock : nat -> Z) (cwd : string)
    (self : PCCapPolicyEngine) (principal : Principal) (tool : string)
    (arguments : Dict.t PyVal) (tid : option string)
  : result (Verdict * PCCapPolicyEngine) :=
  if no_token_id tid then
    let tokens := PCCapStore.list_for_principal (clock O) (sub principal) (_store self) in
    r ← discover clock 1%nat cwd (_keyring self) (_store self) principal tool
          arguments tokens;
    Ok (fst r, with_store self (snd r))
  else
    let tid' := match tid with Some s => s | None => "" end in
    match PCCapStore.get tid' (_store self) with
    | None => Ok ((false, MsgNotFound tid', "DENY_PCCAP_NOT_FOUND"), self)
    | Some token =>
        if single_use token && PCCapStore.is_used (token_id token) (_store self) then
          Ok (replay (token_id token), self)
        else
          r ← enforce_pccap (clock O) cwd principal tool arguments token (_keyring self);
          let out := consume (_store self) token r in
          Ok (fst out, with_store self (snd out))
    end.

(** [PCCapPolicyEngine.revoke] *)
Definition engine_revoke (self : PCCapPolicyEngine) (tid : string)
  : bool * PCCapPolicyEngine :=
  let out := PCCapStore.revoke tid (_store self) in
  (fst out, with_store self (snd out)).

(** [PCCapPolicyEngine.cleanup], [now] the reading of the clock. *)
Definition engine_cleanup (now : Z) (self : PCCapPolicyEngine)
  : Z * PCCapPolicyEngine :=
  let out := PCCapStore.cleanup_expired now (_store self) in
  (fst out, with_store self (snd out)).

End Keyring.

(** ** Statements of the spec, to compare with the code *)

(** The spec's selection of the path-like argument: the keys [path],
    [file_path], [target] in this order, the first present one wins. *)
Definition first_present_path_argument (arguments : Dict.t PyVal)
  : option PyVal :=
  match Dict.get "path" arguments with
  | Some v => Some v
  | None =>
      match Dict.get "file_path" arguments with
      | Some v => Some v
      | None => Dict.get "target" arguments
      end
  end.

(** The store after the id [tid] was added to the consumed set. *)
Definition consumed (tid : string) (st : PCCapStore.state) : PCCapStore.state :=
  {| PCCapStore._tokens := PCCapStore._tokens st;
     PCCapStore._used_tokens := PCCapStore._used_tokens st ∪ {[tid]} |}.

(** An assignment to one signed field of a token, [token.f = v]. *)
Inductive Assignment : Type :=
| SetTokenId (v : string)
| SetPrincipalSub (v : string)
| SetScope (v : PCCapScope)
| SetIssuedAt (v : Z)
| SetExpiresAt (v : Z)
| SetIssuedBy (v : string)
| SetPolicyId (v : option string)
| SetSingleUse (v : bool)
| SetNonce (v : option string)
| SetAlgorithm (v : SignatureAlgorithm).

Definition assign (u : Assignment) (t : PCCapToken) : PCCapToken :=
  {| token_id := match u with SetTokenId v => v | _ => token_id t end;
     principal_sub := match u with SetPrincipalSub v => v | _ => principal_sub t end;
     scope := match u with SetScope v => v | _ => scope t end;
     issued_at := match u with SetIssuedAt v => v | _ => issued_at t end;
     expires_at := match u with SetExpiresAt v => v | _ => expires_at t end;
     issued_by := match u with SetIssuedBy v => v | _ => issued_by t end;
     policy_id := match u with SetPolicyId v => v | _ => policy_id t end;
     single_use := match u with SetSingleUse v => v | _ => single_use t end;
     nonce := match u with SetNonce v => v | _ => nonce t end;
     signature := signature t;
     algorithm := match u with SetAlgorithm v => v | _ => algorithm t end |}.


(** A call of [evaluate_with_pccap]. *)
Record Request : Type := {
  req_clock : nat -> Z;
  req_cwd : string;
  req_principal : Principal;
  req_tool : string;
  req_arguments : Dict.t PyVal;
  req_token_id : option string;
}.

Section Runs.

Variable hmac_sha256 : string -> string -> N.

Definition evaluate_request (self : PCCapPolicyEngine) (q : Request)
  : result (Verdict * PCCapPolicyEngine) :=
  evaluate_with_pccap hmac_sha256 (req_clock q) (req_cwd q) self
    (req_principal q) (req_tool q) (req_arguments q) (req_token_id q).

(** The engine after a call: as the call left it, and as it was when the
    call raised. *)
Definition engine_after (self : PCCapPolicyEngine) (q : Request)
  : PCCapPolicyEngine :=
  match evaluate_request self q with
  | Ok (_, self') => self'
  | Raise _ => self
  end.

(** The engine after a sequence of calls. *)
Definition engine_after_all (self : PCCapPolicyEngine) (qs : list Request)
  : PCCapPolicyEngine :=
  fold_left engine_after qs self.

End Runs.








(** ** Sample values *)

Definition scratch_scope : PCCapScope :=
  {| tool_name := "fs.delete"; allowed_args := [];
     path_prefix := Some "/tmp/scratch"; max_bytes := None |}.


Definition write_scope : PCCapScope :=
  {| tool_name := "fs.write"; allowed_args := [];
     path_prefix := None; max_bytes := Some 5 |}.

Definition query_scope : PCCapScope :=
  {| tool_name := "db.query";
     allowed_args := [("database", PyStr "test_db"); ("readonly", PyBool true)];
     path_prefix := None; max_bytes := None |}.



Definition agent : Principal :=
  {| sub := "agent@test.com"; actor_type := "agent" |}.

Definition other_agent : Principal :=
  {| sub := "other@test.com"; actor_type := "agent" |}.

(** A stand-in for HMAC-SHA256 in the examples: a polynomial hash of the
    key followed by the message, below [2^256]. *)
Fixpoint sample_hash (acc : N) (s : string) : N :=
  match s with
  | EmptyString => acc
  | String c s' => sample_hash ((acc * 257 + PyStr.ord c + 1) mod 2 ^ 256)%N s'
  end.

Definition sample_mac (key msg : string) : N :=
  sample_hash (sample_hash 0 key) msg.

Definition sample_keyring : Keyring :=
  Keyring_init (Some "test-secret-key-32-bytes-long!!") "".

Definition sample_token (tid : string) (expires : Z) (once : bool) : PCCapToken :=
  {| token_id := tid; principal_sub := "agent@test.com";
     scope := scratch_scope; issued_at := 100; expires_at := expires;
     issued_by := "admin@test.com"; policy_id := None;
     single_use := once; nonce := None; signature := None;
     algorithm := HMAC_SHA256 |}.

Definition two_token_store : PCCapStore.state :=
  PCCapStore.store (sample_token "pccap_b" 400 true)
    (PCCapStore.store (sample_token "pccap_a" 100 true) PCCapStore.empty).

(** A store in which an id was consumed and no token is issued under it:
    [mark_used] on the empty store. *)
Definition orphan_store : PCCapStore.state :=
  snd (PCCapStore.mark_used "pccap_orphan" PCCapStore.empty).

(** The token that [mint_pccap] returns at time 1000 for [agent] and
    [scratch_scope], valid for 300 seconds, single-use, signed with
    [sample_mac] under [sample_keyring]. *)
Definition sample_signed_token : PCCapToken :=
  Eval vm_compute in
    match mint_pccap sample_mac 1000 "abcdefghijkl" "mnopqrstuvwx" agent
            scratch_scope "admin@test.com" sample_keyring 300 None true with
    | Ok t => t
    | Raise _ => sample_token "" 0 true
    end.

Definition sample_engine : PCCapPolicyEngine :=
  PCCapPolicyEngine_init sample_keyring
    (Some (PCCapStore.store sample_signed_token PCCapStore.empty)).

Definition sample_request (tid : option string) : Request :=
  {| req_clock := fun _ => 1001; req_cwd := "/home/agent";
     req_principal := agent; req_tool := "fs.delete";
     req_arguments := [("path", PyStr "/tmp/scratch/file.txt")];
     req_token_id := tid |}.

(** ** Further definitions *)

(** The size that the [max_bytes] block measures: the length of a [bytes]
    value, the UTF-8 length of [str(v)] otherwise. *)
Definition size_in_bytes (v : PyVal) : Z :=
  match v with
  | PyBytes b => Z.of_nat (String.length b)
  | other => PyStr.utf8_len (Py.str other)
  end.

(** The verdict of the [max_bytes] block on the value it selected. *)
Definition size_verdict (bound : Z) (v : PyVal) : option Reason :=
  match v with
  | PyNone => None
  | _ => if bound <? size_in_bytes v then Some (ExceedsMaxBytes bound) else None
  end.


(** The padding character of Base64, the one [rstrip("=")] removes. *)
Definition equals_sign : ascii := "="%char.


(** ** The dicts of [to_dict] and [from_dict] *)

(** What [to_dict] builds and [from_dict] reads: a value, or a dict from
    strings to such objects. *)
#[warnings="-register-all"]
Inductive PyObj : Type :=
| OVal (v : PyVal)
| ODict (items : list (string * PyObj)).

Definition obj_of_opt_str (o : option string) : PyObj :=
  OVal (match o with Some s => PyStr s | None => PyNone end).

Definition obj_of_opt_int (o : option Z) : PyObj :=
  OVal (match o with Some z => PyInt z | None => PyNone end).

(** A dict of values as an object. *)
Definition obj_of_args (d : Dict.t PyVal) : PyObj :=
  ODict (List.map (fun kv => (fst kv, OVal (snd kv))) d).

(** [PCCapScope.to_dict] *)
Definition PCCapScope_to_dict (self : PCCapScope) : PyObj :=
  ODict [("tool_name", OVal (PyStr (tool_name self)));
         ("allowed_args", obj_of_args (allowed_args self));
         ("path_prefix", obj_of_opt_str (path_prefix self));
         ("max_bytes", obj_of_opt_int (max_bytes self))].

(** [PCCapToken.to_dict(include_signature)]: the signature is written
    only when it is asked for and truthy. *)
Definition PCCapToken_to_dict (self : PCCapToken) (include_signature : bool)
  : PyObj :=
  let d :=
    [("token_id", OVal (PyStr (token_id self)));
     ("principal_sub", OVal (PyStr (principal_sub self)));
     ("scope", PCCapScope_to_dict (scope self));
     ("issued_at", OVal (PyInt (issued_at self)));
     ("expires_at", OVal (PyInt (expires_at self)));
     ("issued_by", OVal (PyStr (issued_by self)));
     ("policy_id", obj_of_opt_str (policy_id self));
     ("single_use", OVal (PyBool (single_use self)));
     ("nonce", obj_of_opt_str (nonce self));
     ("algorithm", OVal (PyStr (algorithm_value (algorithm self))))] in
  match signature self with
  | Some s =>
      if include_signature && negb (String.eqb s "")
      then ODict (Dict.set "signature" (OVal (PyStr s)) d)
      else ODict d
  | None => ODict d
  end.

(** What a read of a dict gives: a result, or the error raised. *)
Inductive Load (A : Type) : Type :=
| Loaded (a : A)
| KeyError (key : string)
| LoadTypeError
| LoadValueError.

Arguments Loaded {A} a.
Arguments KeyError {A} key.
Arguments LoadTypeError {A}.
Arguments LoadValueError {A}.

Global Instance load_ret : MRet Load := fun A a => Loaded a.

Global Instance load_bind : MBind Load := fun A B k m =>
  match m with
  | Loaded a => k a
  | KeyError key => KeyError key
  | LoadTypeError => LoadTypeError
  | LoadValueError => LoadValueError
  end.

(** [d[k]] *)
Definition subscript (items : list (string * PyObj)) (k : string) : Load PyObj :=
  match Dict.get k items with
  | Some v => Loaded v
  | None => KeyError k
  end.

(** [d.get(k, default)] *)
Definition get_default (items : list (string * PyObj)) (k : string)
    (default : PyObj) : PyObj :=
  match Dict.get k items with
  | Some v => v
  | None => default
  end.

(** The objects that a field of the records holds; [from_dict] itself
    checks no type and stores whatever the dict holds, [None] stands for a
    stored value of another type. *)
Definition as_str (o : PyObj) : option string :=
  match o with OVal (PyStr s) => Some s | _ => None end.

Definition as_int (o : PyObj) : option Z :=
  match o with OVal (PyInt z) => Some z | _ => None end.

Definition as_bool (o : PyObj) : option bool :=
  match o with OVal (PyBool b) => Some b | _ => None end.

Definition as_opt_str (o : PyObj) : option (option string) :=
  match o with
  | OVal PyNone => Some None
  | OVal (PyStr s) => Some (Some s)
  | _ => None
  end.

Definition as_opt_int (o : PyObj) : option (option Z) :=
  match o with
  | OVal PyNone => Some None
  | OVal (PyInt z) => Some (Some z)
  | _ => None
  end.

Fixpoint as_values (items : list (string * PyObj)) : option (Dict.t PyVal) :=
  match items with
  | [] => Some []
  | (k, OVal v) :: rest =>
      match as_values rest with
      | Some d => Some ((k, v) :: d)
      | None => None
      end
  | (_, ODict _) :: _ => None
  end.

Definition as_args (o : PyObj) : option (Dict.t PyVal) :=
  match o with
  | ODict items => as_values items
  | OVal _ => None
  end.

(** [PCCapScope.from_dict(d)] *)
Definition PCCapScope_from_dict (d : PyObj) : Load (option PCCapScope) :=
  match d with
  | OVal _ => LoadTypeError
  | ODict items =>
      tn ← subscript items "tool_name";
      let aa := get_default items "allowed_args" (ODict []) in
      let pp := get_default items "path_prefix" (OVal PyNone) in
      let mb := get_default items "max_bytes" (OVal PyNone) in
      Loaded (tn' ← as_str tn;
              aa' ← as_args aa;
              pp' ← as_opt_str pp;
              mb' ← as_opt_int mb;
              Some {| tool_name := tn'; allowed_args := aa';
                      path_prefix := pp'; max_bytes := mb' |})
  end.

(** [SignatureAlgorithm(v)] *)
Definition SignatureAlgorithm_of (v : PyObj) : Load SignatureAlgorithm :=
  match v with
  | OVal (PyStr s) =>
      if String.eqb s "HS256" then Loaded HMAC_SHA256
      else if String.eqb s "Ed25519" then Loaded ED25519
      else LoadValueError
  | _ => LoadValueError
  end.

(** [PCCapToken.from_dict(d)] *)
Definition PCCapToken_from_dict (d : PyObj) : Load (option PCCapToken) :=
  match d with
  | OVal _ => LoadTypeError
  | ODict items =>
      tid ← subscript items "token_id";
      ps ← subscript items "principal_sub";
      sd ← subscript items "scope";
      sc ← PCCapScope_from_dict sd;
      ia ← subscript items "issued_at";
      ea ← subscript items "expires_at";
      ib ← subscript items "issued_by";
      let pol := get_default items "policy_id" (OVal PyNone) in
      let once := get_default items "single_use" (OVal (PyBool true)) in
      let non := get_default items "nonce" (OVal PyNone) in
      let sig := get_default items "signature" (OVal PyNone) in
      alg ← SignatureAlgorithm_of
              (get_default items "algorithm" (OVal (PyStr "HS256")));
      Loaded (tid' ← as_str tid;
              ps' ← as_str ps;
              sc' ← sc;
              ia' ← as_int ia;
              ea' ← as_int ea;
              ib' ← as_str ib;
              pol' ← as_opt_str pol;
              once' ← as_bool once;
              non' ← as_opt_str non;
              sig' ← as_opt_str sig;
              Some {| token_id := tid'; principal_sub := ps'; scope := sc';
                      issued_at := ia'; expires_at := ea'; issued_by := ib';
                      policy_id := pol'; single_use := once'; nonce := non';
                      signature := sig'; algorithm := alg |})
  end.

(** [sorted(d.items())] by key, for any kind of value. *)
Fixpoint insert_by_key {V : Type} (kv : string * V) (l : list (string * V))
  : list (string * V) :=
  match l with
  | [] => [kv]
  | kv' :: l' =>
      if String.ltb (fst kv') (fst kv) || String.eqb (fst kv') (fst kv)
      then kv' :: insert_by_key kv l'
      else kv :: l
  end.

Definition sort_by_key {V : Type} (d : list (string * V)) : list (string * V) :=
  fold_left (fun acc kv => insert_by_key kv acc) d [].

(** The members of a JSON object, from the keys and the rendered values
    in the order of writing; the first value that cannot be rendered
    raises. *)
Fixpoint members (l : list (string * result string)) : result string :=
  match l with
  | [] => Ok ""
  | (k, rendered) :: rest =>
      jv ← rendered;
      jrest ← members rest;
      Ok (Json.of_str k ++ ":" ++ jv
            ++ match rest with [] => "" | _ => "," ++ jrest end)
  end.

(** [json.dumps(o, sort_keys=True, separators=(",", ":"))] on an object.
    The members are written in key order; rendering a value has no
    effect, so each value is rendered where the dict holds it and the
    renderings are sorted with their keys. *)
Fixpoint dumps (o : PyObj) : result string :=
  match o with
  | OVal v => Json.of_val v
  | ODict items =>
      let fix each (l : list (string * PyObj)) : list (string * result string) :=
        match l with
        | [] => []
        | (k, v) :: rest => (k, dumps v) :: each rest
        end in
      body ← members (sort_by_key (each items));
      Ok ("{" ++ body ++ "}")
  end.
(** * Properties *)

Example normpath_ex1 : PosixPath.normpath "/tmp/scratch/../../../etc/passwd" = "/etc/passwd".
Proof. reflexivity. Qed.

Example normpath_ex2 : PosixPath.normpath "//tmp//scratch/./" = "//tmp/scratch".
Proof. reflexivity. Qed.

Example normpath_ex3 : PosixPath.normpath "a/../../b" = "../b".
Proof. reflexivity. Qed.

Example abspath_ex : PosixPath.abspath "/home/u" "x/y" = "/home/u/x/y".
Proof. reflexivity. Qed.

Example commonpath_ex :
  PosixPath.commonpath "/tmp/scratchy/file.txt" "/tmp/scratch" = Ok "/tmp".
Proof. reflexivity. Qed.

Example test_path_prefix_match :
  matches_request "/home/agent" scratch_scope "fs.delete"
    [("path", PyStr "/tmp/scratch/file.txt")] = Ok (true, None).
Proof. reflexivity. Qed.

Example test_path_prefix_mismatch :
  matches_request "/home/agent" scratch_scope "fs.delete"
    [("path", PyStr "/etc/passwd")]
  = Ok (false, Some (NotUnderPrefix "/etc/passwd" "/tmp/scratch")).
Proof. reflexivity. Qed.

Example test_path_prefix_sibling_rejected :
  matches_request "/home/agent" scratch_scope "fs.delete"
    [("path", PyStr "/tmp/scratchy/file.txt")]
  = Ok (false, Some (NotUnderPrefix "/tmp/scratchy/file.txt" "/tmp/scratch")).
Proof. reflexivity. Qed.

Example test_path_traversal_blocked :
  matches_request "/home/agent" scratch_scope "fs.delete"
    [("path", PyStr "/tmp/scratch/../../../etc/passwd")]
  = Ok (false, Some (PathTraversal "/tmp/scratch/../../../etc/passwd")).
Proof. reflexivity. Qed.

Example test_tool_mismatch :
  matches_request "/" scratch_scope "fs.write" []
  = Ok (false, Some (ToolMismatch "fs.write" "fs.delete")).
Proof. reflexivity. Qed.

Example b64_ex1 : Base64.b64encode "Man" = "TWFu".
Proof. reflexivity. Qed.

Example b64_ex2 : Base64.b64encode "Ma" = "TWE=".
Proof. reflexivity. Qed.

Example b64_ex3 : Base64.b64encode "light w" = "bGlnaHQgdw==".
Proof. reflexivity. Qed.

Example json_dict_ex :
  Json.of_dict [("b", PyInt 2); ("a", PyTuple [1; 2]); ("c", PyStr "x/y")]
  = Ok ("{" ++ Json.of_str "a" ++ ":[1,2]," ++ Json.of_str "b" ++ ":2,"
         ++ Json.of_str "c" ++ ":" ++ Json.of_str "x/y" ++ "}").
Proof. reflexivity. Qed.

(** ** Dicts *)

Module DictFacts.

Section DictFacts.
Context {V : Type}.
Implicit Types (d : Dict.t V) (k : string) (v : V).

Lemma get_set_eq d k v : Dict.get k (Dict.set k v d) = Some v.
Proof.
  induction d as [|[k' v'] d IH]; simpl.
  - by rewrite String.eqb_refl.
  - destruct (String.eqb k k') eqn:E; simpl; rewrite ?String.eqb_refl, ?E; done.
Qed.

Lemma get_set_ne d k k' v : k <> k' -> Dict.get k' (Dict.set k v d) = Dict.get k' d.
Proof.
  intros Hne. induction d as [|[k0 v0] d IH]; simpl.
  - apply String.eqb_neq in Hne. by rewrite String.eqb_sym, Hne.
  - destruct (String.eqb k k0) eqn:E; simpl.
    + apply String.eqb_eq in E; subst k0.
      assert (String.eqb k' k = false) as -> by (apply String.eqb_neq; congruence).
      done.
    + by rewrite IH.
Qed.

Lemma get_del_eq d k : Dict.get k (Dict.del k d) = None.
Proof.
  induction d as [|[k' v'] d IH]; simpl; [done|].
  destruct (String.eqb k k') eqn:E; simpl; rewrite ?E; done.
Qed.

Lemma get_del_ne d k k' : k <> k' -> Dict.get k' (Dict.del k d) = Dict.get k' d.
Proof.
  intros Hne. induction d as [|[k0 v0] d IH]; simpl; [done|].
  destruct (String.eqb k k0) eqn:E; simpl.
  - apply String.eqb_eq in E; subst k0.
    assert (String.eqb k' k = false) as -> by (apply String.eqb_neq; congruence).
    done.
  - by rewrite IH.
Qed.

Lemma del_absent d k : Dict.get k d = None -> Dict.del k d = d.
Proof.
  induction d as [|[k' v'] d IH]; simpl; [done|].
  destruct (String.eqb k k') eqn:E; [done|].
  intros H. by rewrite IH.
Qed.

Lemma mem_get d k : Dict.mem k d = true <-> is_Some (Dict.get k d).
Proof.
  unfold Dict.mem. destruct (Dict.get k d); split; intros H;
    try done; try (by eexists); by destruct H.
Qed.

Lemma get_in d k v : Dict.get k d = Some v -> In (k, v) d.
Proof.
  induction d as [|[k' v'] d IH]; simpl; [done|].
  destruct (String.eqb k k') eqn:E.
  - apply String.eqb_eq in E. intros [= ->]. left. by subst.
  - intros H. right. auto.
Qed.

Lemma wf_nil : Dict.wf (@nil (string * V)).
Proof. constructor. Qed.

Lemma keys_set d k v k' :
  In k' (List.map fst (Dict.set k v d)) <-> k' = k \/ In k' (List.map fst d).
Proof.
  induction d as [|[k0 v0] d IH]; simpl.
  - intuition.
  - destruct (String.eqb k k0) eqn:E; simpl.
    + apply String.eqb_eq in E; subst k0. intuition.
    + rewrite IH. intuition.
Qed.

Lemma wf_set d k v : Dict.wf d -> Dict.wf (Dict.set k v d).
Proof.
  unfold Dict.wf. induction d as [|[k0 v0] d IH]; simpl; intros Hd.
  - apply NoDup_singleton.
  - apply NoDup_cons in Hd as [Hnin Hd].
    destruct (String.eqb k k0) eqn:E; simpl.
    + apply String.eqb_eq in E; subst k0. by apply NoDup_cons.
    + apply NoDup_cons. split; [|by apply IH].
      rewrite list_elem_of_In, keys_set. rewrite list_elem_of_In in Hnin.
      apply String.eqb_neq in E. intros [->|H]; [done|]. by apply Hnin.
Qed.

Lemma keys_del d k k' :
  In k' (List.map fst (Dict.del k d)) <-> k' <> k /\ In k' (List.map fst d).
Proof.
  induction d as [|[k0 v0] d IH]; simpl.
  - intuition.
  - destruct (String.eqb k k0) eqn:E; simpl.
    + apply String.eqb_eq in E; subst k0. rewrite IH. intuition congruence.
    + apply String.eqb_neq in E. rewrite IH. intuition congruence.
Qed.

Lemma wf_del d k : Dict.wf d -> Dict.wf (Dict.del k d).
Proof.
  unfold Dict.wf. induction d as [|[k0 v0] d IH]; simpl; intros Hd; [done|].
  apply NoDup_cons in Hd as [Hnin Hd].
  destruct (String.eqb k k0) eqn:E; simpl; [by apply IH|].
  apply NoDup_cons. split; [|by apply IH].
  rewrite list_elem_of_In, keys_del. rewrite list_elem_of_In in Hnin. tauto.
Qed.

Lemma in_get d k v : Dict.wf d -> In (k, v) d -> Dict.get k d = Some v.
Proof.
  unfold Dict.wf. induction d as [|[k0 v0] d IH]; simpl; intros Hd Hin; [done|].
  apply NoDup_cons in Hd as [Hnin Hd].
  destruct Hin as [[= -> ->]|Hin].
  - by rewrite String.eqb_refl.
  - destruct (String.eqb k k0) eqn:E.
    + apply String.eqb_eq in E; subst k0. exfalso. apply Hnin.
      rewrite list_elem_of_In. apply in_map_iff. by exists (k, v).
    + by apply IH.
Qed.

Lemma wf_filter (Q : string * V -> bool) d : Dict.wf d -> Dict.wf (List.filter Q d).
Proof.
  unfold Dict.wf. induction d as [|[k0 v0] d IH]; cbn; intros Hd; [done|].
  apply NoDup_cons in Hd as [Hnin Hd].
  destruct (Q (k0, v0)); cbn; [|by apply IH].
  apply NoDup_cons. split; [|by apply IH].
  intros Hin. apply Hnin.
  apply list_elem_of_In, in_map_iff in Hin as ([k' v'] & Hk & Hin).
  cbn in Hk; subst k'. apply filter_In in Hin as [Hin _].
  apply list_elem_of_In, in_map_iff. by exists (k0, v').
Qed.

End DictFacts.

End DictFacts.

(** ** The store *)

Module StoreFacts.

Import PCCapStore.

Lemma get_store T st tid :
  get tid (store T st) = if String.eqb (token_id T) tid then Some T else get tid st.
Proof.
  unfold get, store; simpl.
  destruct (String.eqb (token_id T) tid) eqn:E.
  - apply String.eqb_eq in E; subst. apply DictFacts.get_set_eq.
  - apply String.eqb_neq in E. by apply DictFacts.get_set_ne.
Qed.

Lemma is_used_store T st tid : is_used tid (store T st) = is_used tid st.
Proof. reflexivity. Qed.

Lemma wf_store T st :
  Dict.wf (_tokens st) -> Dict.wf (_tokens (store T st)).
Proof. apply DictFacts.wf_set. Qed.

Lemma del_filter {V} (k : string) (d : Dict.t V) :
  Dict.del k d = List.filter (fun kv => negb (String.eqb k (fst kv))) d.
Proof.
  induction d as [|[k' v'] d IH]; simpl; [done|].
  destruct (String.eqb k k'); simpl; by rewrite IH.
Qed.

Lemma tokens_drop_all l st :
  _tokens (fold_left drop l st)
  = List.filter (fun kv => negb (PyStr.mem (fst kv) l)) (_tokens st).
Proof.
  revert st. induction l as [|k l IH]; intros st; simpl.
  - induction (_tokens st) as [|kv d IHd]; simpl; [done|]. by rewrite <- IHd.
  - rewrite IH. simpl. rewrite del_filter.
    induction (_tokens st) as [|kv d IHd]; simpl; [done|].
    rewrite (String.eqb_sym (fst kv) k).
    destruct (String.eqb k (fst kv)); simpl; [done|].
    destruct (PyStr.mem (fst kv) l); simpl; by rewrite IHd.
Qed.

Lemma used_drop_all l st :
  _used_tokens (fold_left drop l st) = _used_tokens st ∖ list_to_set l.
Proof.
  revert st. induction l as [|k l IH]; intros st; simpl.
  - set_solver.
  - rewrite IH. simpl. set_solver.
Qed.

Lemma mem_In x l : PyStr.mem x l = true <-> In x l.
Proof.
  unfold PyStr.mem. rewrite existsb_exists. split.
  - intros (y & Hy & E). apply String.eqb_eq in E. by subst.
  - intros H. exists x. split; [done|apply String.eqb_refl].
Qed.

Lemma expired_ids_In now st tid :
  In tid (expired_ids now st)
  <-> exists t, In (tid, t) (_tokens st) /\ is_expired t now = true.
Proof.
  unfold expired_ids. rewrite in_map_iff. split.
  - intros ([k t] & <- & Hin). apply filter_In in Hin as [Hin He].
    by exists t.
  - intros (t & Hin & He). exists (tid, t). split; [done|].
    apply filter_In. by split.
Qed.

(** With unique keys the sweep keeps exactly the entries that are not
    expired, in their order. *)
Lemma tokens_cleanup now st :
  Dict.wf (_tokens st) ->
  _tokens (snd (cleanup_expired now st))
  = List.filter (fun kv => negb (is_expired (snd kv) now)) (_tokens st).
Proof.
  intros Hwf. unfold cleanup_expired; simpl. rewrite tokens_drop_all.
  apply filter_ext_in. intros [k t] Hin; simpl. f_equal.
  destruct (is_expired t now) eqn:He.
  - apply mem_In, expired_ids_In. by exists t.
  - destruct (PyStr.mem k (expired_ids now st)) eqn:Hm; [|done].
    apply mem_In, expired_ids_In in Hm as (t' & Hin' & He').
    apply (DictFacts.in_get _ _ _ Hwf) in Hin, Hin'. congruence.
Qed.

Lemma get_filter {V} (Q : string * V -> bool) (d : Dict.t V) k :
  Dict.wf d ->
  Dict.get k (List.filter Q d)
  = match Dict.get k d with
    | Some v => if Q (k, v) then Some v else None
    | None => None
    end.
Proof.
  unfold Dict.wf. induction d as [|[k' v'] d IH]; simpl; intros Hd; [done|].
  apply NoDup_cons in Hd as [Hnin Hd].
  destruct (String.eqb k k') eqn:E.
  - apply String.eqb_eq in E; subst k'.
    destruct (Q (k, v')) eqn:HQ; simpl; rewrite ?String.eqb_refl; [done|].
    rewrite IH by done.
    destruct (Dict.get k d) eqn:Hg; [|done].
    exfalso. apply Hnin. rewrite list_elem_of_In. apply in_map_iff.
    exists (k, v). split; [done|]. by apply DictFacts.get_in.
  - destruct (Q (k', v')); simpl; rewrite ?E; by apply IH.
Qed.

Lemma length_filter_split {A} (Q : A -> bool) (l : list A) :
  (List.length l
   = List.length (List.filter Q l) + List.length (List.filter (fun x => negb (Q x)) l))%nat.
Proof.
  induction l as [|x l IH]; simpl; [done|].
  destruct (Q x); simpl; lia.
Qed.

End StoreFacts.

(** ** Revocation and the expiry sweep *)

(** C6, as stated, fails: an id that is in the consumed set and not in the
    issued map stays consumed through [revoke], which reports [False] and
    changes nothing. *)
Lemma C6_revoke_leaves_orphan_consumed :
  PCCapStore.get "pccap_orphan" orphan_store = None
  /\ PCCapStore.is_used "pccap_orphan" orphan_store = true
  /\ PCCapStore.revoke "pccap_orphan" orphan_store = (false, orphan_store)
  /\ PCCapStore.is_used "pccap_orphan"
       (snd (PCCapStore.revoke "pccap_orphan" orphan_store)) = true.
Proof. repeat split; vm_compute; reflexivity. Qed.

(** C6, amended: [revoke(token_id)] returns whether a token was issued
    under the id.  When one was, the id leaves both the issued map and the
    consumed set; when none was, the store is unchanged, the consumed set
    included.  Afterwards the id is not issued, a second [revoke] returns
    [False] and changes nothing, and no other id is affected. *)
Theorem C6_revoke_guarded (tid : string) (st : PCCapStore.state) :
  let out := PCCapStore.revoke tid st in
  fst out = Dict.mem tid (PCCapStore._tokens st)
  /\ PCCapStore.get tid (snd out) = None
  /\ (Dict.mem tid (PCCapStore._tokens st) = true ->
      PCCapStore.is_used tid (snd out) = false)
  /\ (Dict.mem tid (PCCapStore._tokens st) = false -> snd out = st)
  /\ PCCapStore.revoke tid (snd out) = (false, snd out)
  /\ (forall tid', tid' <> tid ->
        PCCapStore.get tid' (snd out) = PCCapStore.get tid' st
        /\ PCCapStore.is_used tid' (snd out) = PCCapStore.is_used tid' st).
Proof.
  unfold PCCapStore.revoke, PCCapStore.get, PCCapStore.is_used.
  destruct (Dict.mem tid (PCCapStore._tokens st)) eqn:Hmem; simpl.
  - assert (Dict.mem tid (Dict.del tid (PCCapStore._tokens st)) = false) as Hgone.
    { unfold Dict.mem. by rewrite DictFacts.get_del_eq. }
    repeat split.
    + apply DictFacts.get_del_eq.
    + intros _. apply bool_decide_eq_false. set_solver.
    + done.
    + by rewrite Hgone.
    + by apply DictFacts.get_del_ne.
    + apply bool_decide_ext. set_solver.
  - assert (Dict.get tid (PCCapStore._tokens st) = None) as Hnone.
    { unfold Dict.mem in Hmem. by destruct (Dict.get tid (PCCapStore._tokens st)). }
    rewrite Hmem. repeat split; done.
Qed.

(** C8: on a store with unique keys, [cleanup_expired(now)] removes from the
    issued map exactly the tokens with [expires_at <= now] and removes their
    ids from the consumed set, returns the number of tokens removed, and
    leaves the issued-map and consumed-set membership of every other id as
    it was.  With one expired and one live token stored it returns 1, the
    expired id is no longer retrievable and the live one still is. *)
Theorem C8_cleanup_expired (now : Z) (st : PCCapStore.state)
    (Hwf : Dict.wf (PCCapStore._tokens st)) :
  let out := PCCapStore.cleanup_expired now st in
  (forall tid,
     PCCapStore.get tid (snd out)
     = match PCCapStore.get tid st with
       | Some t => if decide (expires_at t <= now) then None else Some t
       | None => None
       end)
  /\ (forall tid,
        PCCapStore.is_used tid (snd out)
        = match PCCapStore.get tid st with
          | Some t => if decide (expires_at t <= now) then false
                      else PCCapStore.is_used tid st
          | None => PCCapStore.is_used tid st
          end)
  /\ fst out = Z.of_nat (List.length (PCCapStore._tokens st))
               - Z.of_nat (List.length (PCCapStore._tokens (snd out)))
  /\ Dict.wf (PCCapStore._tokens (snd out))
  /\ (forall e v : PCCapToken,
        token_id e <> token_id v -> expires_at e <= now -> now < expires_at v ->
        let two := PCCapStore.store v (PCCapStore.store e PCCapStore.empty) in
        fst (PCCapStore.cleanup_expired now two) = 1
        /\ PCCapStore.get (token_id e) (snd (PCCapStore.cleanup_expired now two)) = None
        /\ PCCapStore.get (token_id v) (snd (PCCapStore.cleanup_expired now two)) = Some v).
Proof.
  assert (Hexp : forall t, is_expired t now = true <-> expires_at t <= now).
  { intros t. unfold is_expired. rewrite Z.geb_le. done. }
  pose proof (StoreFacts.tokens_cleanup now st Hwf) as Ht.
  cbv zeta. split; [|split; [|split; [|split]]].
  - intros tid. unfold PCCapStore.get.
    rewrite Ht, StoreFacts.get_filter by done.
    destruct (Dict.get tid (PCCapStore._tokens st)) as [t|]; [|done]. simpl.
    destruct (decide (expires_at t <= now)) as [H|H].
    + apply Hexp in H. by rewrite H.
    + destruct (is_expired t now) eqn:E; [|done]. by apply Hexp in E.
  - intros tid. unfold PCCapStore.is_used, PCCapStore.get.
    unfold PCCapStore.cleanup_expired; simpl. rewrite StoreFacts.used_drop_all.
    destruct (Dict.get tid (PCCapStore._tokens st)) as [t|] eqn:Hg.
    + destruct (decide (expires_at t <= now)) as [H|H].
      * apply bool_decide_eq_false. intros Hin.
        apply elem_of_difference in Hin as [_ Hn]. apply Hn.
        apply elem_of_list_to_set, list_elem_of_In, StoreFacts.expired_ids_In.
        exists t. split; [by apply DictFacts.get_in|by apply Hexp].
      * apply bool_decide_ext. rewrite elem_of_difference, elem_of_list_to_set.
        split; [tauto|]. intros Hu. split; [done|].
        rewrite list_elem_of_In, StoreFacts.expired_ids_In.
        intros (t' & Hin & He). apply (DictFacts.in_get _ _ _ Hwf) in Hin.
        apply Hexp in He. rewrite Hg in Hin. injection Hin as <-. contradiction.
    + apply bool_decide_ext. rewrite elem_of_difference, elem_of_list_to_set.
      split; [tauto|]. intros Hu. split; [done|].
      rewrite list_elem_of_In, StoreFacts.expired_ids_In.
      intros (t' & Hin & He). apply (DictFacts.in_get _ _ _ Hwf) in Hin. congruence.
  - rewrite Ht. unfold PCCapStore.cleanup_expired; simpl.
    unfold PCCapStore.expired_ids. rewrite length_map.
    rewrite (StoreFacts.length_filter_split
               (fun kv : string * PCCapToken => is_expired (snd kv) now)
               (PCCapStore._tokens st)).
    lia.
  - rewrite Ht. by apply DictFacts.wf_filter.
  - intros e v Hne He Hv.
    assert (is_expired e now = true) as E1 by by apply Hexp.
    assert (is_expired v now = false) as E2.
    { destruct (is_expired v now) eqn:E; [|done]. apply Hexp in E. lia. }
    assert (String.eqb (token_id v) (token_id e) = false) as N1
      by (apply String.eqb_neq; congruence).
    assert (String.eqb (token_id e) (token_id v) = false) as N2
      by (by apply String.eqb_neq).
    unfold PCCapStore.cleanup_expired, PCCapStore.expired_ids, PCCapStore.store,
      PCCapStore.get, PCCapStore.empty; simpl.
    rewrite N1; simpl. rewrite E1, E2; simpl.
    rewrite String.eqb_refl, N2; simpl. rewrite N2, String.eqb_refl.
    done.
Qed.

(** C8, at a store of two tokens, the first expired at time 101. *)
Lemma C8_cleanup_expired_witness :
  fst (PCCapStore.cleanup_expired 101 two_token_store) = 1
  /\ PCCapStore.get "pccap_a" (snd (PCCapStore.cleanup_expired 101 two_token_store)) = None
  /\ PCCapStore.get "pccap_b" (snd (PCCapStore.cleanup_expired 101 two_token_store))
     = Some (sample_token "pccap_b" 400 true).
Proof.
  assert (Hwf : Dict.wf (PCCapStore._tokens two_token_store))
    by (do 2 apply StoreFacts.wf_store; apply DictFacts.wf_nil).
  destruct (C8_cleanup_expired 101 two_token_store Hwf) as (Hget & _ & _ & _ & _).
  split; [reflexivity|]. split; rewrite Hget; reflexivity.
Defined.

(** ** Enforcement *)

Section Enforcement.

Variable hmac_sha256 : string -> string -> N.

Lemma is_expired_iff t now : is_expired t now = true <-> expires_at t <= now.
Proof. unfold is_expired. by rewrite Z.geb_le. Qed.

Lemma is_expired_false_iff t now : is_expired t now = false <-> now < expires_at t.
Proof.
  split; intros H.
  - destruct (Z.lt_ge_cases now (expires_at t)); [done|].
    apply is_expired_iff in H0. congruence.
  - destruct (is_expired t now) eqn:E; [|done]. apply is_expired_iff in E. lia.
Qed.


End Enforcement.

(** ** Minting *)

Section Minting.

Variable hmac_sha256 : string -> string -> N.

Lemma mint_pccap_inv now rand_id rand_nonce principal sc by' keyring ttl pol once t :
  mint_pccap hmac_sha256 now rand_id rand_nonce principal sc by' keyring ttl pol once
    = Ok t ->
  exists sig,
    t = {| token_id := generate_token_id rand_id;
           principal_sub := sub principal; scope := sc;
           issued_at := now; expires_at := now + ttl; issued_by := by';
           policy_id := pol; single_use := once;
           nonce := Some (PyStr.rstrip_eq (Base64.b64encode rand_nonce));
           signature := Some sig; algorithm := HMAC_SHA256 |}.
Proof.
  unfold mint_pccap. cbn.
  match goal with |- context [sign ?h ?k ?tok] => destruct (sign h k tok) as [sig|] end;
    cbn; [|done].
  intros [= <-]. by exists sig.
Qed.


End Minting.


(** ** The path-like argument *)

Lemma or_truthy a b : Py.truthy a = true -> Py.or a b = a.
Proof. unfold Py.or. by intros ->. Qed.

Lemma or_falsy a b : Py.truthy a = false -> Py.or a b = b.
Proof. unfold Py.or. by intros ->. Qed.

(** C7, as stated, fails: a request with an empty value under [path] and a
    value under [file_path] has its [file_path] checked, not its [path].
    Here the value under [path] would pass the checks (it resolves to the
    working directory, which is the prefix), the request is rejected for
    the value under [file_path]. *)
Lemma C7_empty_path_is_skipped :
  let arguments := [("path", PyStr ""); ("file_path", PyStr "/etc/passwd")] in
  first_present_path_argument arguments = Some (PyStr "")
  /\ check_path "/tmp/scratch" "/tmp/scratch" (PyStr "") = Ok None
  /\ path_argument arguments = PyStr "/etc/passwd"
  /\ matches_request "/tmp/scratch" scratch_scope "fs.delete" arguments
     = Ok (false, Some (NotUnderPrefix "/etc/passwd" "/tmp/scratch")).
Proof. repeat split; vm_compute; reflexivity. Qed.

(** C7, amended: when [path_prefix] is set, the value checked is the first
    truthy one among the values under [path], [file_path] and [target].  A
    truthy value under [path] is the one checked, whatever the other keys
    hold; a falsy one ([None], an empty string, zero, [False], an empty
    sequence) is passed over for the next key, and when all three are falsy
    no path check is made. *)
Theorem C7_first_truthy_wins (cwd : string) (self : PCCapScope) (prefix : string)
    (arguments : Dict.t PyVal) (Hprefix : path_prefix self = Some prefix) :
  let p := arg_get "path" arguments in
  let f := arg_get "file_path" arguments in
  let g := arg_get "target" arguments in
  (Py.truthy p = true ->
     path_argument arguments = p
     /\ check_path_prefix cwd self arguments = check_path cwd prefix p)
  /\ (Py.truthy p = false -> Py.truthy f = true ->
      path_argument arguments = f
      /\ check_path_prefix cwd self arguments = check_path cwd prefix f)
  /\ (Py.truthy p = false -> Py.truthy f = false -> Py.truthy g = true ->
      path_argument arguments = g
      /\ check_path_prefix cwd self arguments = check_path cwd prefix g)
  /\ (Py.truthy p = false -> Py.truthy f = false -> Py.truthy g = false ->
      check_path_prefix cwd self arguments = Ok None).
Proof.
  cbv zeta. unfold check_path_prefix, path_argument. rewrite Hprefix.
  split; [|split; [|split]].
  - intros Hp. rewrite (or_truthy _ _ Hp), (or_truthy _ _ Hp), Hp. done.
  - intros Hp Hf. rewrite (or_falsy _ _ Hp), (or_truthy _ _ Hf), Hf. done.
  - intros Hp Hf Hg. rewrite (or_falsy _ _ Hp), (or_falsy _ _ Hf), Hg. done.
  - intros Hp Hf Hg. rewrite (or_falsy _ _ Hp), (or_falsy _ _ Hf), Hg. done.
Qed.

(** C7, at a request that carries both [path] and [file_path]. *)
Lemma C7_first_truthy_wins_witness :
  check_path_prefix "/home/agent" scratch_scope
    [("path", PyStr "/tmp/scratch/a"); ("file_path", PyStr "/etc/passwd")]
  = check_path "/home/agent" "/tmp/scratch" (PyStr "/tmp/scratch/a").
Proof.
  exact (proj2 (proj1 (C7_first_truthy_wins "/home/agent" scratch_scope
           "/tmp/scratch"
           [("path", PyStr "/tmp/scratch/a"); ("file_path", PyStr "/etc/passwd")]
           eq_refl) eq_refl)).
Defined.

(** ** The policy engine *)

Section Engine.

Variable hmac_sha256 : string -> string -> N.

Lemma with_store_same self : with_store self (_store self) = self.
Proof. by destruct self. Qed.

Lemma mark_used_fresh tid st :
  PCCapStore.is_used tid st = false ->
  PCCapStore.mark_used tid st = (true, consumed tid st).
Proof. unfold PCCapStore.is_used, PCCapStore.mark_used. by intros ->. Qed.

Lemma mark_used_again tid st :
  PCCapStore.is_used tid st = true -> PCCapStore.mark_used tid st = (false, st).
Proof. unfold PCCapStore.is_used, PCCapStore.mark_used. by intros ->. Qed.

Lemma is_used_consumed tid tid' st :
  PCCapStore.is_used tid' (consumed tid st)
  = PCCapStore.is_used tid' st || String.eqb tid tid'.
Proof.
  unfold PCCapStore.is_used, consumed; cbn.
  destruct (String.eqb tid tid') eqn:E.
  - apply String.eqb_eq in E; subst. rewrite orb_true_r.
    apply bool_decide_eq_true. set_solver.
  - apply String.eqb_neq in E. rewrite orb_false_r.
    apply bool_decide_ext. set_solver.
Qed.

Lemma enforce_allowed_inv now cwd principal tool arguments token keyring r :
  enforce_pccap hmac_sha256 now cwd principal tool arguments token keyring = Ok r ->
  fst (fst r) = true ->
  r = (true, MsgValid (token_id token) tool, ALLOW_PCCAP_VALID).
Proof.
  unfold enforce_pccap.
  destruct (is_expired token now); [by intros [= <-]|].
  destruct (verify hmac_sha256 keyring token) as [[|]|]; cbn;
    [|by intros [= <-]|done].
  destruct (String.eqb (principal_sub token) (sub principal)); cbn;
    [|by intros [= <-]].
  destruct (matches_request cwd (scope token) tool arguments) as [[[|] why]|];
    cbn; [by intros [= <-]|by intros [= <-]|done].
Qed.

Lemma consume_denied st t m c :
  consume st t (false, m, c) = ((false, m, code_value c), st).
Proof. reflexivity. Qed.

Lemma consume_fresh st t m c :
  PCCapStore.is_used (token_id t) st = false ->
  consume st t (true, m, c)
  = ((true, m, code_value c), if single_use t then consumed (token_id t) st else st).
Proof.
  intros Hu. unfold consume. cbn. destruct (single_use t); [|done].
  by rewrite (mark_used_fresh _ _ Hu).
Qed.

Lemma consume_used st t m c :
  single_use t = true ->
  PCCapStore.is_used (token_id t) st = true ->
  consume st t (true, m, c) = (replay (token_id t), st).
Proof.
  intros Hs Hu. unfold consume. cbn. rewrite Hs.
  by rewrite (mark_used_again _ _ Hu).
Qed.

Lemma list_for_principal_unused now who st t :
  In t (PCCapStore.list_for_principal now who st) ->
  PCCapStore.is_used (token_id t) st = false.
Proof.
  unfold PCCapStore.list_for_principal. rewrite filter_In. intros [_ H].
  apply andb_prop in H as [_ H]. by apply negb_true_iff in H.
Qed.

(** What the loop over the principal's tokens returns: the no-token denial
    with the store as it was, or an allowance by one of the tokens, which is
    consumed when it is single-use. *)
Lemma discover_spec clock cwd keyring st principal tool arguments tokens :
  (forall t, In t tokens -> PCCapStore.is_used (token_id t) st = false) ->
  forall k v st',
    discover hmac_sha256 clock k cwd keyring st principal tool arguments tokens
      = Ok (v, st') ->
    (v = (false, MsgNoToken tool, "DENY_NO_PCCAP") /\ st' = st)
    \/ (exists t, In t tokens
          /\ v = (true, MsgValid (token_id t) tool, code_value ALLOW_PCCAP_VALID)
          /\ st' = if single_use t then consumed (token_id t) st else st).
Proof.
  induction tokens as [|t rest IH]; intros Hunused k v st'; cbn [discover].
  - intros [= <- <-]. by left.
  - assert (Hrest : forall t', In t' rest -> PCCapStore.is_used (token_id t') st = false)
      by (intros t' Hin; apply Hunused; by right).
    assert (Ht : PCCapStore.is_used (token_id t) st = false)
      by (apply Hunused; by left).
    rewrite Ht, andb_false_r.
    destruct (matches_request cwd (scope t) tool arguments) as [m|] eqn:Hm;
      cbn; [|done].
    destruct (fst m).
    + destruct (enforce_pccap hmac_sha256 (clock k) cwd principal tool arguments t keyring)
        as [r|] eqn:Hr; cbn; [|done].
      destruct (fst (fst r)) eqn:Hallowed.
      * rewrite (enforce_allowed_inv _ _ _ _ _ _ _ _ Hr Hallowed).
        rewrite (consume_fresh _ _ _ _ Ht). intros [= <- <-].
        right. exists t. split; [by left|done].
      * intros H. destruct (IH Hrest _ _ _ H) as [?|(t' & Hin & ?)]; [by left|].
        right. exists t'. split; [by right|done].
    + intros H. destruct (IH Hrest _ _ _ H) as [?|(t' & Hin & ?)]; [by left|].
      right. exists t'. split; [by right|done].
Qed.

(** A returned evaluation keeps the keyring and the issued map, and only
    adds to the consumed set. *)
Lemma evaluate_frame clock cwd self principal tool arguments tid v self' :
  evaluate_with_pccap hmac_sha256 clock cwd self principal tool arguments tid = Ok (v, self') ->
  _keyring self' = _keyring self
  /\ PCCapStore._tokens (_store self') = PCCapStore._tokens (_store self)
  /\ PCCapStore._used_tokens (_store self) ⊆ PCCapStore._used_tokens (_store self').
Proof.
  unfold evaluate_with_pccap. destruct (no_token_id tid).
  - destruct (discover _ _ _ _ _ _ _ _ _ _) as [[v0 st0]|] eqn:Hd; cbn; [|done].
    intros [= <- <-].
    apply discover_spec in Hd as [[_ ->]|(t & _ & _ & ->)];
      [done| |by apply list_for_principal_unused].
    destruct (single_use t); cbn; [|done]. repeat split. set_solver.
  - destruct (PCCapStore.get _ _) as [token|]; [|by intros [= <- <-]].
    destruct (single_use token && PCCapStore.is_used (token_id token) (_store self));
      [by intros [= <- <-]|].
    destruct (enforce_pccap hmac_sha256 _ _ _ _ _ _ _) as [[[allowed m] c]|]; cbn; [|done].
    intros [= <- <-]. unfold consume.
    destruct (allowed && single_use token); cbn; [|done].
    unfold PCCapStore.mark_used.
    destruct (bool_decide _); cbn; [done|]. repeat split. set_solver.
Qed.

(** A denied evaluation leaves the engine as it was: it consumes nothing. *)
Lemma evaluate_denied_unchanged clock cwd self principal tool arguments tid v self' :
  evaluate_with_pccap hmac_sha256 clock cwd self principal tool arguments tid = Ok (v, self') ->
  fst (fst v) = false -> self' = self.
Proof.
  unfold evaluate_with_pccap. destruct (no_token_id tid).
  - destruct (discover _ _ _ _ _ _ _ _ _ _) as [[v0 st0]|] eqn:Hd; cbn; [|done].
    intros [= <- <-].
    apply discover_spec in Hd as [[_ ->]|(t & _ & -> & _)];
      [|done|by apply list_for_principal_unused].
    intros _. apply with_store_same.
  - destruct (PCCapStore.get _ _) as [token|]; [|by intros [= <- <-]].
    destruct (single_use token && PCCapStore.is_used (token_id token) (_store self));
      [by intros [= <- <-]|].
    destruct (enforce_pccap hmac_sha256 _ _ _ _ _ _ _) as [[[allowed m] c]|]; cbn; [|done].
    intros [= <- <-]. unfold consume.
    destruct allowed; cbn; [|intros _; apply with_store_same].
    destruct (single_use token); cbn; [|done].
    unfold PCCapStore.mark_used.
    destruct (bool_decide _); cbn; [intros _; apply with_store_same|done].
Qed.

Lemma engine_after_frame self q :
  _keyring (engine_after hmac_sha256 self q) = _keyring self
  /\ PCCapStore._tokens (_store (engine_after hmac_sha256 self q))
     = PCCapStore._tokens (_store self)
  /\ PCCapStore._used_tokens (_store self)
     ⊆ PCCapStore._used_tokens (_store (engine_after hmac_sha256 self q)).
Proof.
  unfold engine_after, evaluate_request.
  destruct (evaluate_with_pccap hmac_sha256 _ _ _ _ _ _ _) as [[v self']|] eqn:He; [|done].
  by apply evaluate_frame in He.
Qed.

Lemma engine_after_all_frame qs : forall self,
  _keyring (engine_after_all hmac_sha256 self qs) = _keyring self
  /\ PCCapStore._tokens (_store (engine_after_all hmac_sha256 self qs))
     = PCCapStore._tokens (_store self)
  /\ PCCapStore._used_tokens (_store self)
     ⊆ PCCapStore._used_tokens (_store (engine_after_all hmac_sha256 self qs)).
Proof.
  unfold engine_after_all.
  induction qs as [|q qs IH]; intros self; cbn [fold_left]; [done|].
  destruct (IH (engine_after hmac_sha256 self q)) as (Hk & Ht & Hu).
  destruct (engine_after_frame self q) as (Hk' & Ht' & Hu').
  rewrite Hk, Ht. repeat split; try done. set_solver.
Qed.

Lemma no_token_id_some tid : tid <> "" -> no_token_id (Some tid) = false.
Proof. intros H. by apply String.eqb_neq. Qed.

(** A single-use token that is issued and consumed is answered with a
    replay denial, and the engine stays as it is. *)
Lemma evaluate_consumed_replay clock cwd self principal tool arguments t :
  token_id t <> "" ->
  PCCapStore.get (token_id t) (_store self) = Some t ->
  single_use t = true ->
  PCCapStore.is_used (token_id t) (_store self) = true ->
  evaluate_with_pccap hmac_sha256 clock cwd self principal tool arguments (Some (token_id t))
  = Ok (replay (token_id t), self).
Proof.
  intros Hid Hget Hs Hu. unfold evaluate_with_pccap.
  by rewrite (no_token_id_some _ Hid), Hget, Hs, Hu.
Qed.

(** C9: with the empty string as [token_id], [evaluate_with_pccap] does
    what it does when [token_id] is omitted.  It goes over the principal's
    active tokens: it denies with [DENY_NO_PCCAP] and leaves the engine as it
    was, or it allows by one of these tokens and consumes it when it is
    single-use.  The code [DENY_PCCAP_NOT_FOUND] is never returned. *)
Theorem C9_empty_token_id_is_omitted (clock : nat -> Z) (cwd : string)
    (self : PCCapPolicyEngine) (principal : Principal) (tool : string)
    (arguments : Dict.t PyVal) :
  evaluate_with_pccap hmac_sha256 clock cwd self principal tool arguments (Some "")
  = evaluate_with_pccap hmac_sha256 clock cwd self principal tool arguments None
  /\ (forall v self',
        evaluate_with_pccap hmac_sha256 clock cwd self principal tool arguments (Some "") = Ok (v, self') ->
        String.eqb (snd v) "DENY_PCCAP_NOT_FOUND" = false
        /\ ((v = (false, MsgNoToken tool, "DENY_NO_PCCAP") /\ self' = self)
            \/ (exists t,
                  In t (PCCapStore.list_for_principal (clock O) (sub principal)
                          (_store self))
                  /\ v = (true, MsgValid (token_id t) tool, "ALLOW_PCCAP_VALID")
                  /\ self' = with_store self
                               (if single_use t
                                then consumed (token_id t) (_store self)
                                else _store self)))).
Proof.
  split; [reflexivity|].
  intros v self'. unfold evaluate_with_pccap. cbn [no_token_id String.eqb].
  destruct (discover _ _ _ _ _ _ _ _ _ _) as [[v0 st0]|] eqn:Hd; cbn; [|done].
  intros [= <- <-].
  apply discover_spec in Hd as [[-> ->]|(t & Hin & -> & ->)];
    [| |by apply list_for_principal_unused].
  - split; [reflexivity|]. left. split; [done|apply with_store_same].
  - split; [reflexivity|]. right. by exists t.
Qed.

(** C10: [store] leaves the consumed set as it is, so [is_used] answers
    the same for every id before and after.  A single-use token stored under
    an id that is already consumed is therefore denied as a replay when its
    id is presented to [evaluate_with_pccap]. *)
Theorem C10_store_keeps_consumed_set (T : PCCapToken) (st : PCCapStore.state) :
  PCCapStore._used_tokens (PCCapStore.store T st) = PCCapStore._used_tokens st
  /\ (forall x, PCCapStore.is_used x (PCCapStore.store T st) = PCCapStore.is_used x st)
  /\ (forall clock cwd keyring principal tool arguments,
        token_id T <> "" ->
        single_use T = true ->
        PCCapStore.is_used (token_id T) st = true ->
        let self := {| _keyring := keyring; _store := PCCapStore.store T st |} in
        evaluate_with_pccap hmac_sha256 clock cwd self principal tool arguments (Some (token_id T))
        = Ok (replay (token_id T), self)).
Proof.
  split; [reflexivity|]. split; [reflexivity|].
  intros clock cwd keyring principal tool arguments Hid Hs Hu self.
  apply evaluate_consumed_replay; [done| |done|done].
  change (PCCapStore.get (token_id T) (PCCapStore.store T st) = Some T).
  rewrite StoreFacts.get_store. by rewrite String.eqb_refl.
Qed.

(** C4: a single-use token that is stored under its id and not yet
    consumed, presented by its id with a live, correctly signed and matching
    request, is allowed once: the evaluation returns [ALLOW_PCCAP_VALID] and
    consumes the id, and after it every evaluation that presents the id,
    whatever was evaluated in between, is denied with [DENY_PCCAP_REPLAY].
    A [mark_used] that fails after [enforce_pccap] allowed is reported as a
    replay denial, and a denied evaluation consumes nothing. *)
Theorem C4_single_use_consumed_once (self : PCCapPolicyEngine) (t : PCCapToken)
    (q : Request) (why : option Reason)
    (Hstored : PCCapStore.get (token_id t) (_store self) = Some t)
    (Hid : token_id t <> "")
    (Hpresented : req_token_id q = Some (token_id t))
    (Hsingle : single_use t = true)
    (Hfresh : PCCapStore.is_used (token_id t) (_store self) = false)
    (Hlive : req_clock q O < expires_at t)
    (Hsigned : verify hmac_sha256 (_keyring self) t = Ok true)
    (Hprincipal : principal_sub t = sub (req_principal q))
    (Hmatch : matches_request (req_cwd q) (scope t) (req_tool q) (req_arguments q)
              = Ok (true, why)) :
  let self1 := with_store self (consumed (token_id t) (_store self)) in
  evaluate_request hmac_sha256 self q
  = Ok ((true, MsgValid (token_id t) (req_tool q), "ALLOW_PCCAP_VALID"), self1)
  /\ (forall qs q',
        req_token_id q' = Some (token_id t) ->
        evaluate_request hmac_sha256 (engine_after_all hmac_sha256 self1 qs) q'
        = Ok (replay (token_id t), engine_after_all hmac_sha256 self1 qs))
  /\ (forall st m c,
        PCCapStore.is_used (token_id t) st = true ->
        consume st t (true, m, c) = (replay (token_id t), st))
  /\ (forall self0 q0 v self0',
        evaluate_request hmac_sha256 self0 q0 = Ok (v, self0') ->
        fst (fst v) = false -> self0' = self0).
Proof.
  cbv zeta. split; [|split; [|split]].
  - unfold evaluate_request, evaluate_with_pccap.
    rewrite Hpresented, (no_token_id_some _ Hid), Hstored, Hsingle, Hfresh. cbn.
    unfold enforce_pccap.
    apply is_expired_false_iff in Hlive. apply String.eqb_eq in Hprincipal.
    rewrite Hlive, Hsigned. cbn. rewrite Hprincipal, Hmatch. cbn.
    rewrite Hsingle, (mark_used_fresh _ _ Hfresh). reflexivity.
  - intros qs q' Hq'. unfold evaluate_request. rewrite Hq'.
    destruct (engine_after_all_frame qs
                (with_store self (consumed (token_id t) (_store self))))
      as (_ & Ht & Hu).
    apply evaluate_consumed_replay; try done.
    + unfold PCCapStore.get. rewrite Ht. exact Hstored.
    + unfold PCCapStore.is_used. apply bool_decide_eq_true.
      apply Hu. cbn. set_solver.
  - intros st m c Hu. by apply consume_used.
  - intros self0 q0 v self0'. apply evaluate_denied_unchanged.
Qed.

End Engine.


(** C4, at a freshly minted single-use token: allowed once, then a replay. *)
Lemma C4_single_use_consumed_once_witness :
  let tid := token_id sample_signed_token in
  let used := with_store sample_engine (consumed tid (_store sample_engine)) in
  evaluate_request sample_mac sample_engine (sample_request (Some tid))
  = Ok ((true, MsgValid tid "fs.delete", "ALLOW_PCCAP_VALID"), used)
  /\ evaluate_request sample_mac used (sample_request (Some tid))
     = Ok (replay tid, used).
Proof.
  destruct (C4_single_use_consumed_once sample_mac sample_engine
              sample_signed_token
              (sample_request (Some (token_id sample_signed_token))) None)
    as (Hfirst & Hlater & _).
  - reflexivity.
  - discriminate.
  - reflexivity.
  - reflexivity.
  - reflexivity.
  - reflexivity.
  - vm_compute. reflexivity.
  - reflexivity.
  - vm_compute. reflexivity.
  - split; [exact Hfirst|].
    exact (Hlater [] (sample_request (Some (token_id sample_signed_token))) eq_refl).
Defined.

(** With the empty string as token id the engine finds the principal's
    token by itself and consumes it; a second call finds no token. *)
Example empty_token_id_consumes :
  let tid := token_id sample_signed_token in
  let used := with_store sample_engine (consumed tid (_store sample_engine)) in
  evaluate_request sample_mac sample_engine (sample_request (Some ""))
  = Ok ((true, MsgValid tid "fs.delete", "ALLOW_PCCAP_VALID"), used)
  /\ evaluate_request sample_mac used (sample_request (Some ""))
     = Ok ((false, MsgNoToken "fs.delete", "DENY_NO_PCCAP"), used).
Proof. split; vm_compute; reflexivity. Qed.

Example test_no_matching_token :
  evaluate_request sample_mac (PCCapPolicyEngine_init sample_keyring None)
    (sample_request None)
  = Ok ((false, MsgNoToken "fs.delete", "DENY_NO_PCCAP"),
        PCCapPolicyEngine_init sample_keyring None).
Proof. reflexivity. Qed.

Example unknown_token_id_not_found :
  evaluate_request sample_mac sample_engine (sample_request (Some "pccap_none"))
  = Ok ((false, MsgNotFound "pccap_none", "DENY_PCCAP_NOT_FOUND"), sample_engine).
Proof. reflexivity. Qed.

(** ** The keyring *)

Module Base64Facts.

Lemma ord_ascii_of_N n : (n < 256)%N -> PyStr.ord (ascii_of_N n) = n.
Proof. intros H. unfold PyStr.ord. by apply N_ascii_embedding. Qed.

Lemma alphabet_ascii n : (PyStr.ord (Base64.alphabet n) <? 128)%N = true.
Proof.
  unfold Base64.alphabet. apply N.ltb_lt.
  destruct (n <? 26)%N eqn:E1; [apply N.ltb_lt in E1; rewrite ord_ascii_of_N; lia|].
  destruct (n <? 52)%N eqn:E2; [apply N.ltb_lt in E2; rewrite ord_ascii_of_N; lia|].
  destruct (n <? 62)%N eqn:E3; [apply N.ltb_lt in E3; rewrite ord_ascii_of_N; lia|].
  destruct (n =? 62)%N; rewrite ord_ascii_of_N; lia.
Qed.

(** Induction on strings three characters at a time, as [b64encode] reads
    them. *)
Lemma by_threes (P : string -> Prop) :
  P "" ->
  (forall a, P (String a "")) ->
  (forall a b, P (String a (String b ""))) ->
  (forall a b c rest, P rest -> P (String a (String b (String c rest)))) ->
  forall s, P s.
Proof.
  intros H0 H1 H2 H3.
  assert (forall s, P s /\ (forall a, P (String a s))
                    /\ (forall a b, P (String a (String b s)))) as H.
  { induction s as [|c s (IHs & IH1 & IH2)].
    - by repeat split.
    - repeat split; auto. }
  intros s. apply H.
Qed.

Lemma b64encode_ascii s : is_ascii (Base64.b64encode s) = true.
Proof.
  induction s as [|a|a b|a b c rest IH] using by_threes;
    cbn [Base64.b64encode is_ascii]; rewrite ?alphabet_ascii; try done.
Qed.

Lemma b64encode_nonempty s : s <> "" -> Base64.b64encode s <> "".
Proof. destruct s as [|a [|b [|c rest]]]; [done|..]; intros _; discriminate. Qed.

End Base64Facts.

Section KeyringFacts.

Variable hmac_sha256 : string -> string -> N.

Lemma bytes_of_N_nonempty len n : bytes_of_N (S len) n <> "".
Proof. cbn. destruct (bytes_of_N len (n / 256)); discriminate. Qed.

Lemma sign_shape keyring t s :
  sign hmac_sha256 keyring t = Ok s -> s <> "" /\ is_ascii s = true.
Proof.
  unfold sign. destruct (canonical_bytes t) as [msg|];
    unfold mbind, result_bind; [|done].
  intros H.
  apply (f_equal (fun r => match r with Ok x => x | Raise _ => s end)) in H.
  cbv beta iota in H. subst s. split.
  - apply Base64Facts.b64encode_nonempty. apply bytes_of_N_nonempty.
  - apply Base64Facts.b64encode_ascii.
Qed.

Lemma canonical_bytes_set_signature t x :
  canonical_bytes (set_signature t x) = canonical_bytes t.
Proof. reflexivity. Qed.

Lemma sign_set_signature keyring t x :
  sign hmac_sha256 keyring (set_signature t x) = sign hmac_sha256 keyring t.
Proof. reflexivity. Qed.

Lemma signature_assign u t : signature (assign u t) = signature t.
Proof. reflexivity. Qed.


(** [verify] answers [True] exactly when the stored signature is the one
    recomputed from the current fields. *)
Lemma verify_true_iff keyring t :
  verify hmac_sha256 keyring t = Ok true <-> exists s, signature t = Some s /\ sign hmac_sha256 keyring t = Ok s.
Proof.
  unfold verify. destruct (signature t) as [s|]; cycle 1.
  { split; [done|]. by intros (s & [=] & _). }
  destruct (String.eqb s "") eqn:Hs.
  - apply String.eqb_eq in Hs; subst s. split; [done|].
    intros (s & [= <-] & H). apply sign_shape in H as [H _]. done.
  - destruct (sign hmac_sha256 keyring t) as [expected|] eqn:Hx; cbn.
    + unfold compare_digest.
      destruct (sign_shape _ _ _ Hx) as [_ Ha]. rewrite Ha, andb_true_r.
      destruct (is_ascii s) eqn:Hsa.
      * split.
        -- intros [= H]. apply String.eqb_eq in H; subst. by exists expected.
        -- intros (s' & [= <-] & [= ->]). by rewrite String.eqb_refl.
      * split; [done|]. intros (s' & [= <-] & [= ->]). congruence.
    + split; [done|]. by intros (s' & _ & [=]).
Qed.

Lemma verify_signed keyring t s :
  sign hmac_sha256 keyring t = Ok s -> verify hmac_sha256 keyring (set_signature t (Some s)) = Ok true.
Proof.
  intros H. apply verify_true_iff. exists s. split; [done|].
  by rewrite sign_set_signature.
Qed.


End KeyringFacts.





Example test_signature_verification :
  verify sample_mac sample_keyring sample_signed_token = Ok true
  /\ verify sample_mac sample_keyring
       (set_signature sample_signed_token (Some "invalid")) = Ok false.
Proof. split; vm_compute; reflexivity. Qed.

Example test_signature_tampering_detected :
  let tampered := assign (SetExpiresAt (expires_at sample_signed_token + 3600))
                    sample_signed_token in
  verify sample_mac sample_keyring tampered = Ok false
  /\ verify sample_mac sample_keyring
       (assign (SetExpiresAt (expires_at tampered - 3600)) tampered) = Ok true.
Proof. split; vm_compute; reflexivity. Qed.

Example verify_non_ascii_signature_raises :
  verify sample_mac sample_keyring
    (set_signature sample_signed_token (Some (String (ascii_of_N 233) "")))
  = Raise TypeError.
Proof. vm_compute. reflexivity. Qed.

(** ** Paths *)

Module PathFacts.

Import PyStr PosixPath.

Lemma split_nonempty s : split s <> [].
Proof.
  destruct s as [|c s]; cbn; [done|].
  destruct (Ascii.eqb c slash); [done|]. by destruct (split s).
Qed.








































End PathFacts.

(** ** The path check of [matches_request] *)






(** ** The scenarios of the test suite *)

Example test_max_bytes_enforced :
  matches_request "/" write_scope "fs.write" [("content", PyStr "xxx")]
  = Ok (true, None)
  /\ matches_request "/" write_scope "fs.write" [("content", PyStr "xxxxxxxxxx")]
     = Ok (false, Some (ExceedsMaxBytes 5))
  /\ matches_request "/" write_scope "fs.write" [("data", PyBytes "xxxxxx")]
     = Ok (false, Some (ExceedsMaxBytes 5)).
Proof. repeat split; vm_compute; reflexivity. Qed.

Example test_allowed_args_exact_match :
  matches_request "/" query_scope "db.query"
    [("database", PyStr "test_db"); ("readonly", PyBool true);
     ("query", PyStr "SELECT 1")]
  = Ok (true, None)
  /\ matches_request "/" query_scope "db.query"
       [("database", PyStr "prod_db"); ("readonly", PyBool true)]
     = Ok (false, Some (ArgMismatch "database" (PyStr "prod_db") (PyStr "test_db"))).
Proof. split; vm_compute; reflexivity. Qed.

Example test_valid_token_allowed :
  enforce_pccap_for_fs_delete sample_mac 1001 "/home/agent" agent
    "/tmp/scratch/file.txt" sample_signed_token sample_keyring
  = Ok (true, MsgValid (token_id sample_signed_token) "fs.delete", ALLOW_PCCAP_VALID).
Proof. vm_compute. reflexivity. Qed.

Example test_expired_token_denied :
  enforce_pccap_for_fs_delete sample_mac 1300 "/home/agent" agent
    "/tmp/scratch/file.txt" sample_signed_token sample_keyring
  = Ok (false, MsgExpired (token_id sample_signed_token) 1300, DENY_PCCAP_EXPIRED).
Proof. vm_compute. reflexivity. Qed.

Example test_wrong_principal_denied :
  enforce_pccap_for_fs_delete sample_mac 1001 "/home/agent" other_agent
    "/tmp/scratch/file.txt" sample_signed_token sample_keyring
  = Ok (false, MsgWrongPrincipal "agent@test.com" "other@test.com",
        DENY_PCCAP_PRINCIPAL_MISMATCH).
Proof. vm_compute. reflexivity. Qed.

Example test_scope_violation_denied :
  enforce_pccap_for_fs_delete sample_mac 1001 "/home/agent" agent
    "/etc/passwd" sample_signed_token sample_keyring
  = Ok (false, MsgScopeMismatch (Some (NotUnderPrefix "/etc/passwd" "/tmp/scratch")),
        DENY_PCCAP_SCOPE_MISMATCH).
Proof. vm_compute. reflexivity. Qed.

Example test_invalid_signature_denied :
  enforce_pccap_for_fs_delete sample_mac 1001 "/home/agent" agent
    "/tmp/scratch/file.txt"
    (set_signature sample_signed_token (Some "corrupted")) sample_keyring
  = Ok (false, MsgInvalidSignature (token_id sample_signed_token),
        DENY_PCCAP_SIGNATURE_INVALID).
Proof. vm_compute. reflexivity. Qed.

Example test_revoke :
  let st := PCCapStore.store sample_signed_token PCCapStore.empty in
  fst (PCCapStore.revoke (token_id sample_signed_token) st) = true
  /\ PCCapStore.get (token_id sample_signed_token)
       (snd (PCCapStore.revoke (token_id sample_signed_token) st)) = None.
Proof. split; vm_compute; reflexivity. Qed.

Example test_list_excludes_consumed_single_use_tokens :
  let st := PCCapStore.store sample_signed_token PCCapStore.empty in
  List.length (PCCapStore.list_for_principal 1001 "agent@test.com" st) = 1%nat
  /\ fst (PCCapStore.mark_used (token_id sample_signed_token) st) = true
  /\ List.length (PCCapStore.list_for_principal 1001 "agent@test.com"
                    (snd (PCCapStore.mark_used (token_id sample_signed_token) st)))
     = 0%nat.
Proof. repeat split; vm_compute; reflexivity. Qed.

Example test_multi_use_token_allows_repeat :
  let t := assign (SetSingleUse false) sample_signed_token in
  exists sig,
    sign sample_mac sample_keyring t = Ok sig
    /\ let self := PCCapPolicyEngine_init sample_keyring
                     (Some (PCCapStore.store (set_signature t (Some sig))
                              PCCapStore.empty)) in
       let q := sample_request (Some (token_id t)) in
       evaluate_request sample_mac self q
       = Ok ((true, MsgValid (token_id t) "fs.delete", "ALLOW_PCCAP_VALID"), self)
       /\ evaluate_request sample_mac (engine_after sample_mac self q) q
          = Ok ((true, MsgValid (token_id t) "fs.delete", "ALLOW_PCCAP_VALID"), self).
Proof. eexists. split; [vm_compute; reflexivity|]. split; vm_compute; reflexivity. Qed.

(** * Further properties of the code *)

(** ** Scope matching *)



(** X2: [matches_request] makes its checks in the order tool name, path
    prefix, [max_bytes], [allowed_args], and returns the reason of the first
    check that fails; a wrong tool name is reported whatever the arguments
    are.  It matches exactly when the tool name is the scope's and the three
    other checks pass. *)
Theorem X2_matches_request_first_failure (cwd : string) (self : PCCapScope)
    (tool : string) (arguments : Dict.t PyVal) :
  let r := matches_request cwd self tool arguments in
  (tool <> tool_name self ->
     r = Ok (false, Some (ToolMismatch tool (tool_name self))))
  /\ (forall why,
        tool = tool_name self ->
        check_path_prefix cwd self arguments = Ok (Some why) ->
        r = Ok (false, Some why))
  /\ (forall why,
        tool = tool_name self ->
        check_path_prefix cwd self arguments = Ok None ->
        check_max_bytes self arguments = Some why ->
        r = Ok (false, Some why))
  /\ (forall why,
        tool = tool_name self ->
        check_path_prefix cwd self arguments = Ok None ->
        check_max_bytes self arguments = None ->
        check_allowed_args (allowed_args self) arguments = Some why ->
        r = Ok (false, Some why))
  /\ (r = Ok (true, None)
      <-> tool = tool_name self
          /\ check_path_prefix cwd self arguments = Ok None
          /\ check_max_bytes self arguments = None
          /\ check_allowed_args (allowed_args self) arguments = None).
Proof.
  cbv zeta. unfold matches_request.
  split; [|split; [|split; [|split]]].
  - intros H. apply String.eqb_neq in H. by rewrite H.
  - intros why -> H. by rewrite String.eqb_refl, H.
  - intros why -> H1 H2. rewrite String.eqb_refl, H1. cbn [negb mbind result_bind].
    by rewrite H2.
  - intros why -> H1 H2 H3. rewrite String.eqb_refl, H1. cbn [negb mbind result_bind].
    by rewrite H2, H3.
  - split.
    + destruct (String.eqb tool (tool_name self)) eqn:E; cbn [negb]; [|done].
      apply String.eqb_eq in E.
      destruct (check_path_prefix cwd self arguments) as [[why|]|];
        cbn [mbind result_bind]; try done.
      destruct (check_max_bytes self arguments); [done|].
      destruct (check_allowed_args (allowed_args self) arguments); done.
    + intros (-> & H1 & H2 & H3). rewrite String.eqb_refl, H1.
      cbn [negb mbind result_bind]. by rewrite H2, H3.
Qed.

(** X3: when none of the values under [path], [file_path] and [target] is
    truthy (the keys are absent, or hold [None], an empty string, zero,
    [False] or an empty sequence), the path-prefix block makes no check and
    the verdict of [matches_request] does not depend on [path_prefix].  So
    [enforce_pccap_for_fs_delete] with the empty path allows under every
    prefix a live, verified token of the principal whose scope has no other
    constraint. *)
Theorem X3_no_path_value_no_prefix_check (cwd : string) (self : PCCapScope)
    (tool : string) (arguments : Dict.t PyVal) :
  (Py.truthy (path_argument arguments) = false
   <-> Py.truthy (arg_get "path" arguments) = false
       /\ Py.truthy (arg_get "file_path" arguments) = false
       /\ Py.truthy (arg_get "target" arguments) = false)
  /\ (Py.truthy (path_argument arguments) = false ->
      check_path_prefix cwd self arguments = Ok None
      /\ forall other : PCCapScope,
           tool_name other = tool_name self ->
           allowed_args other = allowed_args self ->
           max_bytes other = max_bytes self ->
           matches_request cwd other tool arguments
           = matches_request cwd self tool arguments)
  /\ (forall hmac now principal token keyring,
        now < expires_at token ->
        verify hmac keyring token = Ok true ->
        principal_sub token = sub principal ->
        tool_name (scope token) = "fs.delete" ->
        max_bytes (scope token) = None ->
        allowed_args (scope token) = [] ->
        enforce_pccap_for_fs_delete hmac now cwd principal "" token keyring
        = Ok (true, MsgValid (token_id token) "fs.delete", ALLOW_PCCAP_VALID)).
Proof.
  assert (Hskip : forall s args, Py.truthy (path_argument args) = false ->
                                 check_path_prefix cwd s args = Ok None).
  { intros s args H. unfold check_path_prefix. destruct (path_prefix s); [|done].
    by rewrite H. }
  split; [|split].
  - unfold path_argument, Py.or.
    destruct (Py.truthy (arg_get "path" arguments)) eqn:Hp.
    { rewrite Hp. split; [congruence|]. by intros (? & _). }
    destruct (Py.truthy (arg_get "file_path" arguments)) eqn:Hf.
    { rewrite Hf. split; [congruence|]. by intros (_ & ? & _). }
    tauto.
  - intros H. split; [by apply Hskip|].
    intros other Ht Ha Hm. unfold matches_request.
    rewrite (Hskip self _ H), (Hskip other _ H), Ht, Ha.
    unfold check_max_bytes. by rewrite Hm.
  - intros hmac now principal token keyring Hlive Hv Hp Htool Hmax Hargs.
    unfold enforce_pccap_for_fs_delete, enforce_pccap.
    apply is_expired_false_iff in Hlive. apply String.eqb_eq in Hp.
    rewrite Hlive, Hv. cbn [negb mbind result_bind]. rewrite Hp. cbn [negb].
    unfold matches_request. rewrite Htool. cbn [String.eqb Ascii.eqb negb].
    rewrite (Hskip (scope token)) by reflexivity. cbn [mbind result_bind].
    unfold check_max_bytes. rewrite Hmax, Hargs. reflexivity.
Qed.

(** X4: with [max_bytes] set, the size check is made on one value only: the
    one under [content] when it is truthy, whatever [data] holds, and the one
    under [data] otherwise.  No check is made when that value is [None]; a
    [bytes] value is measured by its length, every other value by the UTF-8
    length of its [str].  Without [max_bytes] nothing is checked. *)
Theorem X4_max_bytes_checks_one_value (self : PCCapScope)
    (arguments : Dict.t PyVal) :
  (max_bytes self = None -> check_max_bytes self arguments = None)
  /\ (forall bound,
        max_bytes self = Some bound ->
        (Py.truthy (arg_get "content" arguments) = true ->
         check_max_bytes self arguments
         = size_verdict bound (arg_get "content" arguments))
        /\ (Py.truthy (arg_get "content" arguments) = false ->
            check_max_bytes self arguments
            = size_verdict bound (arg_get "data" arguments)))
  /\ (forall bound s,
        is_ascii s = true ->
        size_verdict bound (PyStr s)
        = if bound <? Z.of_nat (String.length s)
          then Some (ExceedsMaxBytes bound) else None).
Proof.
  split; [|split].
  - unfold check_max_bytes. by intros ->.
  - intros bound Hb. unfold check_max_bytes. rewrite Hb. split; intros H.
    + rewrite (or_truthy _ _ H). unfold size_verdict, size_in_bytes.
      by destruct (arg_get "content" arguments).
    + rewrite (or_falsy _ _ H). unfold size_verdict, size_in_bytes.
      by destruct (arg_get "data" arguments).
  - intros bound s Hs. unfold size_verdict, size_in_bytes, Py.str.
    replace (PyStr.utf8_len s) with (Z.of_nat (String.length s)); [done|].
    induction s as [|c s IH]; [done|].
    cbn [is_ascii] in Hs. apply andb_prop in Hs as [Hc Hs].
    cbn [PyStr.utf8_len String.length]. rewrite Hc, <- IH by done. lia.
Qed.

Lemma arg_get_set_ne k k' v (arguments : Dict.t PyVal) :
  k <> k' -> arg_get k' (Dict.set k v arguments) = arg_get k' arguments.
Proof. intros H. unfold arg_get. by rewrite DictFacts.get_set_ne. Qed.

Lemma check_allowed_args_none items arguments :
  check_allowed_args items arguments = None
  <-> Forall (fun kv => Py.eqb (arg_get (fst kv) arguments) (snd kv) = true) items.
Proof.
  induction items as [|[k e] items IH]; cbn [check_allowed_args].
  - split; [constructor|done].
  - rewrite Forall_cons. cbn [fst snd].
    destruct (Py.eqb (arg_get k arguments) e); cbn [negb].
    + rewrite IH. tauto.
    + split; [done|]. by intros [? _].
Qed.

(** X5: the [allowed_args] loop passes exactly when every constrained key
    holds, in the request, a value equal to the expected one, an absent key
    counting as [None].  Whether it passes does not depend on the order of
    the constraints, and a request key that is not constrained is ignored.
    A constraint that expects [None] is met by a request without the key. *)
Theorem X5_allowed_args_exact_match (items : Dict.t PyVal)
    (arguments : Dict.t PyVal) :
  (check_allowed_args items arguments = None
   <-> forall k expected, In (k, expected) items ->
                          Py.eqb (arg_get k arguments) expected = true)
  /\ (forall items',
        items ≡ₚ items' ->
        (check_allowed_args items arguments = None
         <-> check_allowed_args items' arguments = None))
  /\ (forall k v,
        ~ In k (List.map fst items) ->
        check_allowed_args items (Dict.set k v arguments)
        = check_allowed_args items arguments)
  /\ (forall k,
        Dict.get k arguments = None ->
        check_allowed_args [(k, PyNone)] arguments = None).
Proof.
  split; [|split; [|split]].
  - rewrite check_allowed_args_none, List.Forall_forall. split.
    + intros H k e Hin. by apply (H (k, e)).
    + intros H [k e] Hin. by apply H.
  - intros items' Hp. rewrite !check_allowed_args_none. by rewrite Hp.
  - intros k v. induction items as [|[k0 e0] items IH]; [done|].
    cbn [List.map fst In check_allowed_args]. intros Hnin.
    rewrite arg_get_set_ne by (intros ->; apply Hnin; by left).
    rewrite IH; [done|]. intros Hin. apply Hnin. by right.
  - intros k Hk. cbn [check_allowed_args]. unfold arg_get. by rewrite Hk.
Qed.

(** ** The store, further *)

Lemma dict_set_present {V} (d : Dict.t V) k v :
  Dict.mem k d = true ->
  List.map fst (Dict.set k v d) = List.map fst d.
Proof.
  unfold Dict.mem. induction d as [|[k0 v0] d IH]; cbn [Dict.get Dict.set]; [done|].
  destruct (String.eqb k k0) eqn:E; cbn [List.map fst].
  - apply String.eqb_eq in E. by subst.
  - intros H. by rewrite IH.
Qed.

Lemma dict_set_absent {V} (d : Dict.t V) k v :
  Dict.mem k d = false -> Dict.set k v d = (d ++ [(k, v)])%list.
Proof.
  unfold Dict.mem. induction d as [|[k0 v0] d IH]; cbn [Dict.get Dict.set]; [done|].
  destruct (String.eqb k k0) eqn:E; [done|].
  intros H. cbn [app]. by rewrite IH.
Qed.

Lemma dict_set_set {V} (d : Dict.t V) k v v' :
  Dict.set k v (Dict.set k v' d) = Dict.set k v d.
Proof.
  induction d as [|[k0 v0] d IH]; cbn [Dict.set].
  - by rewrite String.eqb_refl.
  - destruct (String.eqb k k0) eqn:E; cbn [Dict.set].
    + by rewrite String.eqb_refl.
    + by rewrite E, IH.
Qed.

(** X6: [store] followed by [get] under the token's id returns the token,
    and no other id is affected.  A token stored under an id that is already
    issued takes the place of the old one, at its position, so storing twice
    under one id is storing the last token only; a token with a new id comes
    last in the issued map.  The ids of the map stay unique. *)
Theorem X6_store_then_get (T : PCCapToken) (st : PCCapStore.state) :
  PCCapStore.get (token_id T) (PCCapStore.store T st) = Some T
  /\ (forall tid, tid <> token_id T ->
        PCCapStore.get tid (PCCapStore.store T st) = PCCapStore.get tid st)
  /\ (forall T', token_id T' = token_id T ->
        PCCapStore.store T (PCCapStore.store T' st) = PCCapStore.store T st)
  /\ (Dict.mem (token_id T) (PCCapStore._tokens st) = true ->
      List.map fst (PCCapStore._tokens (PCCapStore.store T st))
      = List.map fst (PCCapStore._tokens st))
  /\ (Dict.mem (token_id T) (PCCapStore._tokens st) = false ->
      PCCapStore._tokens (PCCapStore.store T st)
      = (PCCapStore._tokens st ++ [(token_id T, T)])%list)
  /\ (Dict.wf (PCCapStore._tokens st) ->
      Dict.wf (PCCapStore._tokens (PCCapStore.store T st))).
Proof.
  split; [|split; [|split; [|split; [|split]]]].
  - rewrite StoreFacts.get_store. by rewrite String.eqb_refl.
  - intros tid Hne. rewrite StoreFacts.get_store.
    assert (String.eqb (token_id T) tid = false) as ->; [|done].
    apply String.eqb_neq. congruence.
  - intros T' Hid. unfold PCCapStore.store. cbn. rewrite Hid.
    by rewrite dict_set_set.
  - apply dict_set_present.
  - apply dict_set_absent.
  - apply DictFacts.wf_set.
Qed.

Lemma is_used_after_consumed tid tid' st :
  PCCapStore.is_used tid' (consumed tid st)
  = PCCapStore.is_used tid' st || String.eqb tid tid'.
Proof.
  unfold PCCapStore.is_used, consumed. cbn [PCCapStore._used_tokens].
  destruct (String.eqb tid tid') eqn:E.
  - apply String.eqb_eq in E. subst. rewrite orb_true_r.
    apply bool_decide_eq_true. apply elem_of_union. right.
    by apply elem_of_singleton.
  - apply String.eqb_neq in E. rewrite orb_false_r.
    apply bool_decide_ext. rewrite elem_of_union, elem_of_singleton.
    split; [intros [?|?]; [done|congruence]|by left].
Qed.

(** X7: [mark_used] answers [True] exactly when the id was not yet
    consumed, and the id is consumed afterwards; a second [mark_used]
    answers [False] and changes nothing.  The issued map is never touched,
    no other id is affected, and an id under which no token is issued is
    consumed all the same. *)
Theorem X7_mark_used_first_wins (tid : string) (st : PCCapStore.state) :
  let out := PCCapStore.mark_used tid st in
  fst out = negb (PCCapStore.is_used tid st)
  /\ PCCapStore.is_used tid (snd out) = true
  /\ PCCapStore.mark_used tid (snd out) = (false, snd out)
  /\ PCCapStore._tokens (snd out) = PCCapStore._tokens st
  /\ (forall tid', tid' <> tid ->
        PCCapStore.is_used tid' (snd out) = PCCapStore.is_used tid' st)
  /\ (PCCapStore.is_used tid st = true -> snd out = st).
Proof.
  cbv zeta. destruct (PCCapStore.is_used tid st) eqn:Hu.
  - rewrite (mark_used_again _ _ Hu). cbn [fst snd negb].
    rewrite (mark_used_again _ _ Hu). by repeat split.
  - rewrite (mark_used_fresh _ _ Hu). cbn [fst snd negb].
    assert (PCCapStore.is_used tid (consumed tid st) = true) as Hnow.
    { rewrite is_used_after_consumed. by rewrite String.eqb_refl, orb_true_r. }
    rewrite (mark_used_again _ _ Hnow). repeat split; try done.
    intros tid' Hne. rewrite is_used_after_consumed.
    assert (String.eqb tid tid' = false) as ->; [|by rewrite orb_false_r].
    apply String.eqb_neq. congruence.
Qed.

Lemma filter_none {A} (P : A -> bool) (l : list A) :
  (forall x, In x l -> P x = false) -> List.filter P l = [].
Proof.
  induction l as [|x l IH]; [done|]. intros H. cbn [List.filter].
  rewrite (H x) by (by left). apply IH. intros y Hy. apply H. by right.
Qed.

(** X8: on a store with unique keys, after [cleanup_expired(now)] no issued
    token is expired at [now]; a second sweep, at [now] or at an earlier
    time, returns 0 and changes nothing.  The sweep goes by the issued map:
    an id that is consumed and not issued stays in the consumed set. *)
Theorem X8_cleanup_expired_idempotent (now : Z) (st : PCCapStore.state)
    (Hwf : Dict.wf (PCCapStore._tokens st)) :
  let swept := snd (PCCapStore.cleanup_expired now st) in
  (forall tid t, PCCapStore.get tid swept = Some t -> now < expires_at t)
  /\ (forall now', now' <= now -> PCCapStore.cleanup_expired now' swept = (0, swept))
  /\ (forall tid, PCCapStore.get tid st = None ->
        PCCapStore.is_used tid swept = PCCapStore.is_used tid st).
Proof.
  cbv zeta. pose proof (StoreFacts.tokens_cleanup now st Hwf) as Ht.
  split; [|split].
  - intros tid t. unfold PCCapStore.get. rewrite Ht.
    intros Hg. apply DictFacts.get_in, filter_In in Hg as [_ Hg].
    cbn [snd] in Hg. apply negb_true_iff in Hg. by apply is_expired_false_iff.
  - intros now' Hle. unfold PCCapStore.cleanup_expired at 1.
    assert (PCCapStore.expired_ids now' (snd (PCCapStore.cleanup_expired now st)) = [])
      as ->; [|done].
    unfold PCCapStore.expired_ids. rewrite Ht, filter_none; [done|].
    intros [k t] Hin. apply filter_In in Hin as [_ Hin]. cbn [snd] in *.
    apply negb_true_iff, is_expired_false_iff in Hin.
    apply is_expired_false_iff. lia.
  - intros tid Hnone. unfold PCCapStore.is_used, PCCapStore.cleanup_expired.
    cbn [snd]. rewrite StoreFacts.used_drop_all.
    apply bool_decide_ext. rewrite elem_of_difference, elem_of_list_to_set.
    split; [tauto|]. intros Hu. split; [done|].
    rewrite list_elem_of_In, StoreFacts.expired_ids_In.
    intros (t & Hin & _). apply (DictFacts.in_get _ _ _ Hwf) in Hin.
    unfold PCCapStore.get in Hnone. congruence.
Qed.

(** X8, at the store of two tokens: after the sweep at time 101 a second
    sweep removes nothing. *)
Lemma X8_cleanup_expired_idempotent_witness :
  PCCapStore.cleanup_expired 101 (snd (PCCapStore.cleanup_expired 101 two_token_store))
  = (0, snd (PCCapStore.cleanup_expired 101 two_token_store)).
Proof.
  assert (Hwf : Dict.wf (PCCapStore._tokens two_token_store))
    by (do 2 apply StoreFacts.wf_store; apply DictFacts.wf_nil).
  destruct (X8_cleanup_expired_idempotent 101 two_token_store Hwf) as (_ & Hagain & _).
  apply Hagain. lia.
Defined.

(** ** The policy engine, further *)

Section EngineMore.

Variable hmac_sha256 : string -> string -> N.

Lemma enforce_allowed_iff now cwd principal tool arguments token keyring m c :
  enforce_pccap hmac_sha256 now cwd principal tool arguments token keyring
    = Ok (true, m, c)
  <-> (now < expires_at token
       /\ verify hmac_sha256 keyring token = Ok true
       /\ principal_sub token = sub principal
       /\ exists why, matches_request cwd (scope token) tool arguments = Ok (true, why))
      /\ m = MsgValid (token_id token) tool /\ c = ALLOW_PCCAP_VALID.
Proof.
  unfold enforce_pccap. split.
  - destruct (is_expired token now) eqn:He; [done|].
    apply is_expired_false_iff in He.
    destruct (verify hmac_sha256 keyring token) as [[|]|] eqn:Hv;
      cbn [negb mbind result_bind]; try done.
    destruct (String.eqb (principal_sub token) (sub principal)) eqn:Hp;
      cbn [negb]; [|done].
    apply String.eqb_eq in Hp.
    destruct (matches_request cwd (scope token) tool arguments)
      as [[[|] why]|] eqn:Hm; cbn [negb mbind result_bind fst snd]; try done.
    intros [= <- <-]. repeat split; try done. by exists why.
  - intros ((He & Hv & Hp & why & Hm) & -> & ->).
    apply is_expired_false_iff in He. apply String.eqb_eq in Hp.
    rewrite He, Hv. cbn [negb mbind result_bind]. rewrite Hp, Hm. reflexivity.
Qed.

Lemma enforce_code_allowed now cwd principal tool arguments token keyring a m c :
  enforce_pccap hmac_sha256 now cwd principal tool arguments token keyring
    = Ok (a, m, c) ->
  (a = true <-> c = ALLOW_PCCAP_VALID).
Proof.
  unfold enforce_pccap.
  destruct (is_expired token now); [by intros [= <- <- <-]|].
  destruct (verify hmac_sha256 keyring token) as [[|]|];
    cbn [negb mbind result_bind]; [|by intros [= <- <- <-]|done].
  destruct (String.eqb (principal_sub token) (sub principal)); cbn [negb];
    [|by intros [= <- <- <-]].
  destruct (matches_request cwd (scope token) tool arguments) as [[[|] why]|];
    cbn [negb mbind result_bind fst snd];
    [by intros [= <- <- <-]|by intros [= <- <- <-]|done].
Qed.

(** An issued token that is live, verified, bound to the principal and
    matched by the request, and not consumed, is allowed when its id is
    presented; it is consumed when it is single-use. *)
Lemma evaluate_valid_allowed clock cwd self principal tool arguments t why :
  token_id t <> "" ->
  PCCapStore.get (token_id t) (_store self) = Some t ->
  PCCapStore.is_used (token_id t) (_store self) = false ->
  clock O < expires_at t ->
  verify hmac_sha256 (_keyring self) t = Ok true ->
  principal_sub t = sub principal ->
  matches_request cwd (scope t) tool arguments = Ok (true, why) ->
  evaluate_with_pccap hmac_sha256 clock cwd self principal tool arguments
    (Some (token_id t))
  = Ok ((true, MsgValid (token_id t) tool, "ALLOW_PCCAP_VALID"),
        with_store self (if single_use t
                         then consumed (token_id t) (_store self)
                         else _store self)).
Proof.
  intros Hid Hget Hfresh Hlive Hv Hp Hm. unfold evaluate_with_pccap.
  rewrite (no_token_id_some _ Hid), Hget, Hfresh, andb_false_r.
  assert (enforce_pccap hmac_sha256 (clock O) cwd principal tool arguments t
            (_keyring self)
          = Ok (true, MsgValid (token_id t) tool, ALLOW_PCCAP_VALID)) as ->.
  { apply enforce_allowed_iff. repeat split; try done. by exists why. }
  cbn [mbind result_bind]. rewrite (consume_fresh _ _ _ _ Hfresh). reflexivity.
Qed.

(** X9: after the engine's [revoke] of a non-empty id, an evaluation that
    presents the id is denied with [DENY_PCCAP_NOT_FOUND] and changes
    nothing.  Revoking an issued id also removes it from the consumed set:
    a valid token stored again under the id is allowed when the id is
    presented, also when the id had been consumed before the revocation. *)
Theorem X9_revoke_then_evaluate (self : PCCapPolicyEngine) (tid : string)
    (Hid : tid <> "") :
  let out := engine_revoke self tid in
  (forall clock cwd principal tool arguments,
     evaluate_with_pccap hmac_sha256 clock cwd (snd out) principal tool arguments
       (Some tid)
     = Ok ((false, MsgNotFound tid, "DENY_PCCAP_NOT_FOUND"), snd out))
  /\ _keyring (snd out) = _keyring self
  /\ PCCapStore.is_used tid (_store (snd out))
     = PCCapStore.is_used tid (_store self) && negb (fst out)
  /\ (forall T clock cwd principal tool arguments why,
        fst out = true ->
        token_id T = tid ->
        clock O < expires_at T ->
        verify hmac_sha256 (_keyring self) T = Ok true ->
        principal_sub T = sub principal ->
        matches_request cwd (scope T) tool arguments = Ok (true, why) ->
        let again := with_store (snd out) (PCCapStore.store T (_store (snd out))) in
        evaluate_with_pccap hmac_sha256 clock cwd again principal tool arguments
          (Some tid)
        = Ok ((true, MsgValid tid tool, "ALLOW_PCCAP_VALID"),
              with_store again (if single_use T
                                then consumed tid (_store again)
                                else _store again))).
Proof.
  cbv zeta. unfold engine_revoke.
  assert (Hgone : PCCapStore.get tid (snd (PCCapStore.revoke tid (_store self))) = None).
  { unfold PCCapStore.revoke, PCCapStore.get.
    destruct (Dict.mem tid (PCCapStore._tokens (_store self))) eqn:Hmem; cbn [snd].
    - apply DictFacts.get_del_eq.
    - unfold Dict.mem in Hmem.
      by destruct (Dict.get tid (PCCapStore._tokens (_store self))). }
  assert (Hused : PCCapStore.is_used tid (snd (PCCapStore.revoke tid (_store self)))
                  = PCCapStore.is_used tid (_store self)
                    && negb (fst (PCCapStore.revoke tid (_store self)))).
  { unfold PCCapStore.revoke, PCCapStore.is_used.
    destruct (Dict.mem tid (PCCapStore._tokens (_store self))); cbn [fst snd negb].
    - rewrite andb_false_r. apply bool_decide_eq_false.
      cbn [PCCapStore._used_tokens].
      rewrite elem_of_difference, elem_of_singleton. tauto.
    - by rewrite andb_true_r. }
  cbn [fst snd]. split; [|split; [|split]].
  - intros clock cwd principal tool arguments. unfold evaluate_with_pccap.
    rewrite (no_token_id_some _ Hid). cbn [_store with_store]. by rewrite Hgone.
  - reflexivity.
  - exact Hused.
  - intros T clock cwd principal tool arguments why Hex <- Hlive Hv Hp Hm.
    cbn [_store with_store].
    apply (evaluate_valid_allowed clock cwd
             (with_store (with_store self (snd (PCCapStore.revoke (token_id T) (_store self))))
                (PCCapStore.store T (snd (PCCapStore.revoke (token_id T) (_store self)))))
             principal tool arguments T why); try done.
    + cbn [_store with_store]. rewrite StoreFacts.get_store.
      by rewrite String.eqb_refl.
    + cbn [_store with_store]. rewrite StoreFacts.is_used_store, Hused, Hex.
      by rewrite andb_false_r.
Qed.

End EngineMore.

(** X9, at the engine that holds the sample token: once revoked, its id is
    not found. *)
Lemma X9_revoke_then_evaluate_witness :
  let tid := token_id sample_signed_token in
  let revoked := snd (engine_revoke sample_engine tid) in
  evaluate_request sample_mac revoked (sample_request (Some tid))
  = Ok ((false, MsgNotFound tid, "DENY_PCCAP_NOT_FOUND"), revoked).
Proof.
  cbv zeta. unfold evaluate_request.
  apply (X9_revoke_then_evaluate sample_mac sample_engine
           (token_id sample_signed_token)).
  discriminate.
Defined.

Section EngineSound.

Variable hmac_sha256 : string -> string -> N.

(** What the loop over the principal's tokens found when it allowed. *)
Lemma discover_sound clock cwd keyring st principal tool arguments tokens :
  (forall t, In t tokens -> PCCapStore.is_used (token_id t) st = false) ->
  forall k v st',
    discover hmac_sha256 clock k cwd keyring st principal tool arguments tokens
      = Ok (v, st') ->
    fst (fst v) = true ->
    exists t k',
      In t tokens
      /\ enforce_pccap hmac_sha256 (clock k') cwd principal tool arguments t keyring
         = Ok (true, MsgValid (token_id t) tool, ALLOW_PCCAP_VALID)
      /\ v = (true, MsgValid (token_id t) tool, "ALLOW_PCCAP_VALID")
      /\ st' = if single_use t then consumed (token_id t) st else st.
Proof.
  induction tokens as [|t rest IH]; intros Hunused k v st'; cbn [discover].
  - by intros [= <- <-].
  - assert (Hrest : forall t', In t' rest -> PCCapStore.is_used (token_id t') st = false)
      by (intros t' Hin; apply Hunused; by right).
    assert (Ht : PCCapStore.is_used (token_id t) st = false)
      by (apply Hunused; by left).
    rewrite Ht, andb_false_r.
    destruct (matches_request cwd (scope t) tool arguments) as [m|] eqn:Hm;
      cbn [mbind result_bind]; [|done].
    destruct (fst m).
    + destruct (enforce_pccap hmac_sha256 (clock k) cwd principal tool arguments t keyring)
        as [r|] eqn:Hr; cbn [mbind result_bind]; [|done].
      destruct (fst (fst r)) eqn:Hallowed.
      * pose proof (enforce_allowed_inv _ _ _ _ _ _ _ _ _ Hr Hallowed) as ->.
        rewrite (consume_fresh _ _ _ _ Ht). intros [= <- <-] _.
        exists t, k. split; [by left|]. by repeat split.
      * intros H Ha. destruct (IH Hrest _ _ _ H Ha) as (t' & k' & Hin & ?).
        exists t', k'. split; [by right|done].
    + intros H Ha. destruct (IH Hrest _ _ _ H Ha) as (t' & k' & Hin & ?).
      exists t', k'. split; [by right|done].
Qed.

Lemma list_for_principal_In now who st t :
  In t (PCCapStore.list_for_principal now who st) ->
  (exists key, In (key, t) (PCCapStore._tokens st))
  /\ principal_sub t = who
  /\ now < expires_at t
  /\ PCCapStore.is_used (token_id t) st = false.
Proof.
  unfold PCCapStore.list_for_principal. rewrite filter_In, in_map_iff.
  intros [([key t'] & Ht & Hin) H]. cbn [snd] in Ht. subst t'.
  apply andb_prop in H as [H Hu]. apply andb_prop in H as [Hp He].
  split; [by exists key|]. split; [by apply String.eqb_eq|].
  split; [by apply is_expired_false_iff, negb_true_iff|by apply negb_true_iff].
Qed.

(** X10: [evaluate_with_pccap] allows only by an issued token: whenever it
    returns an allowance there is a token in the issued map that was live at
    a reading of the clock during the call, that verifies under the engine's
    keyring, that is bound to the requesting principal and whose scope
    matches the request, and that, if single-use, had not been consumed.
    When an id was presented the token is the one issued under it.  The
    verdict carries [ALLOW_PCCAP_VALID], and the engine changes by the
    consumption of that token's id alone, when the token is single-use. *)
Theorem X10_evaluate_allows_only_by_valid_token (clock : nat -> Z)
    (cwd : string) (self : PCCapPolicyEngine) (principal : Principal)
    (tool : string) (arguments : Dict.t PyVal) (tid : option string)
    (v : Verdict) (self' : PCCapPolicyEngine)
    (Hreturns : evaluate_with_pccap hmac_sha256 clock cwd self principal tool
                  arguments tid = Ok (v, self'))
    (Hallowed : fst (fst v) = true) :
  exists key t k,
    In (key, t) (PCCapStore._tokens (_store self))
    /\ (no_token_id tid = false ->
        tid = Some key /\ PCCapStore.get key (_store self) = Some t)
    /\ clock k < expires_at t
    /\ verify hmac_sha256 (_keyring self) t = Ok true
    /\ principal_sub t = sub principal
    /\ (exists why, matches_request cwd (scope t) tool arguments = Ok (true, why))
    /\ (single_use t = true ->
        PCCapStore.is_used (token_id t) (_store self) = false)
    /\ v = (true, MsgValid (token_id t) tool, "ALLOW_PCCAP_VALID")
    /\ self' = with_store self
                 (if single_use t
                  then consumed (token_id t) (_store self)
                  else _store self).
Proof.
  revert Hreturns. unfold evaluate_with_pccap.
  destruct (no_token_id tid) eqn:Hno.
  - destruct (discover _ _ _ _ _ _ _ _ _ _) as [[v0 st0]|] eqn:Hd;
      cbn [mbind result_bind]; [|done].
    intros [= <- <-]. cbn [fst snd] in *.
    apply discover_sound in Hd as (t & k & Hin & He & -> & ->);
      [| by apply list_for_principal_unused | done].
    apply list_for_principal_In in Hin as ([key Hkey] & Hp & _ & Hu).
    apply enforce_allowed_iff in He as ((Hl & Hv & _ & Hm) & _).
    exists key, t, k. repeat split; try done.
  - destruct tid as [tid|]; [|done]. cbn [no_token_id] in Hno.
    destruct (PCCapStore.get tid (_store self)) as [t|] eqn:Hget.
    2:{ intros [= <- <-]. done. }
    destruct (single_use t && PCCapStore.is_used (token_id t) (_store self)) eqn:Hrep.
    { intros [= <- <-]. done. }
    destruct (enforce_pccap hmac_sha256 (clock O) cwd principal tool arguments t
                (_keyring self)) as [[[a m] c]|] eqn:He;
      cbn [mbind result_bind]; [|done].
    destruct a.
    2:{ rewrite consume_denied. intros [= <- <-]. done. }
    apply enforce_allowed_iff in He as ((Hl & Hv & Hp & Hm) & -> & ->).
    assert (Hfresh : single_use t = true ->
                     PCCapStore.is_used (token_id t) (_store self) = false).
    { intros Hs. rewrite Hs in Hrep. exact Hrep. }
    intros Hout. exists tid, t, O.
    split; [by apply DictFacts.get_in|]. split; [done|].
    do 5 (split; [done|]).
    destruct (single_use t) eqn:Hs.
    + rewrite (consume_fresh _ _ _ _ (Hfresh eq_refl)), Hs in Hout.
      by injection Hout as <- <-.
    + unfold consume in Hout. rewrite Hs in Hout. cbn [andb fst snd] in Hout.
      by injection Hout as <- <-.
Qed.

Lemma code_value_allow c :
  code_value c = "ALLOW_PCCAP_VALID" <-> c = ALLOW_PCCAP_VALID.
Proof. destruct c; split; (done || discriminate). Qed.

(** X11: a verdict returned by [evaluate_with_pccap] carries one of the
    eight codes of the module, it allows exactly when the code is
    [ALLOW_PCCAP_VALID], and a denial leaves the engine as it was. *)
Theorem X11_evaluate_codes (clock : nat -> Z) (cwd : string)
    (self : PCCapPolicyEngine) (principal : Principal) (tool : string)
    (arguments : Dict.t PyVal) (tid : option string)
    (v : Verdict) (self' : PCCapPolicyEngine)
    (Hreturns : evaluate_with_pccap hmac_sha256 clock cwd self principal tool
                  arguments tid = Ok (v, self')) :
  In (snd v)
     ["ALLOW_PCCAP_VALID"; "DENY_PCCAP_EXPIRED"; "DENY_PCCAP_SIGNATURE_INVALID";
      "DENY_PCCAP_PRINCIPAL_MISMATCH"; "DENY_PCCAP_SCOPE_MISMATCH";
      "DENY_PCCAP_REPLAY"; "DENY_PCCAP_NOT_FOUND"; "DENY_NO_PCCAP"]
  /\ (fst (fst v) = true <-> snd v = "ALLOW_PCCAP_VALID")
  /\ (fst (fst v) = false -> self' = self).
Proof.
  split; [|split]; [| |by apply (evaluate_denied_unchanged hmac_sha256 _ _ _ _ _ _ _ _ _ Hreturns)].
  - revert Hreturns. unfold evaluate_with_pccap. destruct (no_token_id tid).
    + destruct (discover _ _ _ _ _ _ _ _ _ _) as [[v0 st0]|] eqn:Hd;
        cbn [mbind result_bind]; [|done].
      intros [= <- <-]. cbn [fst].
      apply discover_spec in Hd as [[-> _]|(t & _ & -> & _)];
        [| |by apply list_for_principal_unused]; cbn; tauto.
    + destruct (PCCapStore.get _ _) as [t|]; [|intros [= <- <-]; cbn; tauto].
      destruct (single_use t && PCCapStore.is_used (token_id t) (_store self)) eqn:Hrep;
        [intros [= <- <-]; cbn; tauto|].
      destruct (enforce_pccap _ _ _ _ _ _ _ _) as [[[a m] c]|];
        cbn [mbind result_bind]; [|done].
      intros [= <- <-]. unfold consume.
      destruct (a && single_use t); [|destruct c; cbn; tauto].
      destruct (PCCapStore.mark_used (token_id t) (_store self)) as [fresh st1].
      destruct fresh; cbn [negb fst snd]; [destruct c; cbn; tauto|cbn; tauto].
  - revert Hreturns. unfold evaluate_with_pccap. destruct (no_token_id tid).
    + destruct (discover _ _ _ _ _ _ _ _ _ _) as [[v0 st0]|] eqn:Hd;
        cbn [mbind result_bind]; [|done].
      intros [= <- <-]. cbn [fst].
      by apply discover_spec in Hd as [[-> _]|(t & _ & -> & _)];
        [| |by apply list_for_principal_unused].
    + destruct (PCCapStore.get _ _) as [t|]; [|by intros [= <- <-]].
      destruct (single_use t && PCCapStore.is_used (token_id t) (_store self)) eqn:Hrep;
        [by intros [= <- <-]|].
      destruct (enforce_pccap _ _ _ _ _ _ _ _) as [[[a m] c]|] eqn:He;
        cbn [mbind result_bind]; [|done].
      apply enforce_code_allowed in He.
      intros [= <- <-]. unfold consume.
      destruct (a && single_use t) eqn:Has.
      * apply andb_prop in Has as [-> Hs]. rewrite Hs in Hrep. cbn [andb] in Hrep.
        rewrite (mark_used_fresh _ _ Hrep). cbn [negb fst snd].
        rewrite code_value_allow. tauto.
      * cbn [fst snd]. rewrite code_value_allow. tauto.
Qed.

End EngineSound.

(** X10, at the sample engine: the allowance comes from the sample token. *)
Lemma X10_evaluate_allows_only_by_valid_token_witness :
  exists key t k,
    In (key, t) (PCCapStore._tokens (_store sample_engine))
    /\ req_clock (sample_request None) k < expires_at t
    /\ principal_sub t = sub agent.
Proof.
  destruct (X10_evaluate_allows_only_by_valid_token sample_mac
              (req_clock (sample_request None)) "/home/agent" sample_engine agent
              "fs.delete" [("path", PyStr "/tmp/scratch/file.txt")] None
              (true, MsgValid (token_id sample_signed_token) "fs.delete",
               "ALLOW_PCCAP_VALID")
              (with_store sample_engine
                 (consumed (token_id sample_signed_token) (_store sample_engine))))
    as (key & t & k & Hin & _ & Hl & _ & Hp & _).
  - vm_compute. reflexivity.
  - reflexivity.
  - exists key, t, k. by repeat split.
Defined.

(** X11, at the sample engine and an unknown id. *)
Lemma X11_evaluate_codes_witness :
  (fst (fst (false, MsgNotFound "pccap_none", "DENY_PCCAP_NOT_FOUND")) = true
   <-> "DENY_PCCAP_NOT_FOUND" = "ALLOW_PCCAP_VALID").
Proof.
  destruct (X11_evaluate_codes sample_mac (fun _ => 1001) "/home/agent"
              sample_engine agent "fs.delete"
              [("path", PyStr "/tmp/scratch/file.txt")] (Some "pccap_none")
              (false, MsgNotFound "pccap_none", "DENY_PCCAP_NOT_FOUND")
              sample_engine eq_refl) as (_ & H & _).
  exact H.
Defined.

(** ** From minting to enforcement *)

Section MintThenEnforce.

Variable hmac_sha256 : string -> string -> N.

Lemma minted_verifies now rand_id rand_nonce principal sc by' keyring ttl pol once t :
  mint_pccap hmac_sha256 now rand_id rand_nonce principal sc by' keyring ttl pol once
    = Ok t ->
  verify hmac_sha256 keyring t = Ok true.
Proof.
  unfold mint_pccap.
  match goal with |- context [sign ?h ?k ?tok] =>
    destruct (sign h k tok) as [sig|] eqn:Hs end;
    cbn [mbind result_bind]; [|done].
  intros H.
  apply (f_equal (fun r => match r with Ok x => x | Raise _ => t end)) in H.
  cbv beta iota in H. subst t. by apply verify_signed.
Qed.

Lemma generate_token_id_nonempty r : generate_token_id r <> "".
Proof. discriminate. Qed.

Lemma minted_token_fields now rand_id rand_nonce principal sc by' keyring ttl pol once t :
  mint_pccap hmac_sha256 now rand_id rand_nonce principal sc by' keyring ttl pol once
    = Ok t ->
  verify hmac_sha256 keyring t = Ok true
  /\ principal_sub t = sub principal /\ scope t = sc /\ single_use t = once
  /\ token_id t = generate_token_id rand_id /\ expires_at t = now + ttl.
Proof.
  intros Hmint. split; [by apply minted_verifies in Hmint|].
  apply mint_pccap_inv in Hmint as [sig ->]. by cbn.
Qed.


(** X13: after the engine's [mint], a request of the principal that the
    scope matches, made before [now + ttl_seconds] with the returned token's
    id, is allowed, and a single-use token is consumed by it.  This needs the
    generated id not to be in the consumed set already; the id is never
    empty, and the token is the one issued under it. *)
Theorem X13_mint_then_evaluate (now : Z) (rand_id rand_nonce : string)
    (self : PCCapPolicyEngine) (principal : Principal) (sc : PCCapScope)
    (by' : string) (ttl : Z) (pol : option string) (once : bool)
    (t : PCCapToken) (self1 : PCCapPolicyEngine)
    (Hmint : mint hmac_sha256 now rand_id rand_nonce self principal sc by' ttl
               pol once = Ok (t, self1))
    (Hunused : PCCapStore.is_used (generate_token_id rand_id) (_store self) = false) :
  token_id t = generate_token_id rand_id
  /\ PCCapStore.get (token_id t) (_store self1) = Some t
  /\ _keyring self1 = _keyring self
  /\ (forall clock cwd tool arguments why,
        clock O < now + ttl ->
        matches_request cwd sc tool arguments = Ok (true, why) ->
        evaluate_with_pccap hmac_sha256 clock cwd self1 principal tool arguments
          (Some (token_id t))
        = Ok ((true, MsgValid (token_id t) tool, "ALLOW_PCCAP_VALID"),
              with_store self1 (if once
                                then consumed (token_id t) (_store self1)
                                else _store self1))).
Proof.
  revert Hmint. unfold mint.
  destruct (mint_pccap hmac_sha256 now rand_id rand_nonce principal sc by'
              (_keyring self) ttl pol once) as [t0|] eqn:Ht;
    cbn [mbind result_bind]; [|done].
  intros H.
  assert (t0 = t /\ with_store self (PCCapStore.store t0 (_store self)) = self1)
    as [-> <-].
  { split.
    - by apply (f_equal (fun r => match r with Ok x => fst x | Raise _ => t end)) in H.
    - by apply (f_equal (fun r => match r with Ok x => snd x | Raise _ => self1 end)) in H. }
  clear H.
  destruct (minted_token_fields _ _ _ _ _ _ _ _ _ _ _ Ht)
    as (Hv & Hp & Hsc & Ho & Hid & Hexp).
  assert (Hget : PCCapStore.get (token_id t)
                   (_store (with_store self (PCCapStore.store t (_store self))))
                 = Some t).
  { cbn [_store with_store]. rewrite StoreFacts.get_store.
    by rewrite String.eqb_refl. }
  split; [done|]. split; [done|]. split; [done|].
  intros clock cwd tool arguments why Hlive Hm. rewrite <- Ho.
  apply (evaluate_valid_allowed hmac_sha256 clock cwd _ principal tool arguments t why);
    try done.
  - rewrite Hid. apply generate_token_id_nonempty.
  - cbn [_store with_store]. by rewrite StoreFacts.is_used_store, Hid.
  - lia.
  - by rewrite Hsc.
Qed.

End MintThenEnforce.


(** X13, at the engine that mints the sample token. *)
Lemma X13_mint_then_evaluate_witness :
  PCCapStore.get (token_id sample_signed_token) (_store sample_engine)
  = Some sample_signed_token.
Proof.
  assert (Hmint : mint sample_mac 1000 "abcdefghijkl" "mnopqrstuvwx"
                    (PCCapPolicyEngine_init sample_keyring None) agent
                    scratch_scope "admin@test.com" 300 None true
                  = Ok (sample_signed_token, sample_engine))
    by (vm_compute; reflexivity).
  apply (X13_mint_then_evaluate sample_mac _ _ _ _ _ _ _ _ _ _ _ _ Hmint).
  vm_compute. reflexivity.
Defined.

Section Discovery.

Variable hmac_sha256 : string -> string -> N.

(** With a valid token among the candidates the loop does not end in a
    denial. *)
Lemma discover_complete clock cwd keyring st principal tool arguments t why :
  (forall k, clock k < expires_at t) ->
  verify hmac_sha256 keyring t = Ok true ->
  principal_sub t = sub principal ->
  matches_request cwd (scope t) tool arguments = Ok (true, why) ->
  PCCapStore.is_used (token_id t) st = false ->
  forall tokens, In t tokens ->
  forall k v st',
    discover hmac_sha256 clock k cwd keyring st principal tool arguments tokens
      = Ok (v, st') ->
    fst (fst v) = true.
Proof.
  intros Hlive Hv Hp Hm Hu tokens.
  induction tokens as [|t0 rest IH]; [done|].
  intros Hin k v st'. cbn [discover].
  destruct (single_use t0 && PCCapStore.is_used (token_id t0) st) eqn:Hskip.
  { destruct Hin as [->|Hin]; [|by apply IH].
    rewrite Hu, andb_false_r in Hskip. done. }
  destruct (matches_request cwd (scope t0) tool arguments) as [m|] eqn:Hm0;
    cbn [mbind result_bind]; [|done].
  destruct (fst m) eqn:Hfm.
  - destruct (enforce_pccap hmac_sha256 (clock k) cwd principal tool arguments t0 keyring)
      as [r|] eqn:Hr; cbn [mbind result_bind]; [|done].
    destruct (fst (fst r)) eqn:Ha.
    + pose proof (enforce_allowed_inv _ _ _ _ _ _ _ _ _ Hr Ha) as ->.
      unfold consume. destruct (true && single_use t0) eqn:Hs.
      * cbn [andb] in Hs. rewrite Hs in Hskip. cbn [andb] in Hskip.
        rewrite (mark_used_fresh _ _ Hskip). by intros [= <- <-].
      * by intros [= <- <-].
    + destruct Hin as [->|Hin]; [|by apply IH].
      assert (enforce_pccap hmac_sha256 (clock k) cwd principal tool arguments t keyring
              = Ok (true, MsgValid (token_id t) tool, ALLOW_PCCAP_VALID)) as He.
      { apply enforce_allowed_iff. repeat split; try done. by exists why. }
      rewrite He in Hr. injection Hr as <-. done.
  - destruct Hin as [->|Hin]; [|by apply IH].
    rewrite Hm in Hm0. injection Hm0 as <-. done.
Qed.

(** X14: when the issued map holds a token of the principal that verifies,
    whose scope matches the request, that is not consumed and that is live
    at every reading of the clock during the call, an evaluation without a
    token id does not return a denial: a verdict that it returns is an
    allowance with [ALLOW_PCCAP_VALID]. *)
Theorem X14_discovery_finds_valid_token (clock : nat -> Z) (cwd : string)
    (self : PCCapPolicyEngine) (principal : Principal) (tool : string)
    (arguments : Dict.t PyVal) (key : string) (t : PCCapToken)
    (why : option Reason)
    (Hissued : In (key, t) (PCCapStore._tokens (_store self)))
    (Hlive : forall k, clock k < expires_at t)
    (Hsigned : verify hmac_sha256 (_keyring self) t = Ok true)
    (Hprincipal : principal_sub t = sub principal)
    (Hmatch : matches_request cwd (scope t) tool arguments = Ok (true, why))
    (Hunused : PCCapStore.is_used (token_id t) (_store self) = false) :
  forall v self',
    evaluate_with_pccap hmac_sha256 clock cwd self principal tool arguments None
      = Ok (v, self') ->
    fst (fst v) = true /\ snd v = "ALLOW_PCCAP_VALID".
Proof.
  intros v self'. unfold evaluate_with_pccap. cbn [no_token_id].
  destruct (discover _ _ _ _ _ _ _ _ _ _) as [[v0 st0]|] eqn:Hd;
    cbn [mbind result_bind]; [|done].
  intros [= <- <-]. cbn [fst].
  assert (Ha : fst (fst v0) = true).
  { apply (discover_complete _ _ _ _ _ _ _ t why Hlive Hsigned Hprincipal Hmatch
             Hunused _) in Hd; [done|].
    unfold PCCapStore.list_for_principal. apply filter_In. split.
    - apply in_map_iff. by exists (key, t).
    - rewrite Hprincipal, String.eqb_refl, Hunused.
      assert (is_expired t (clock O) = false) as ->; [|done].
      apply is_expired_false_iff, Hlive. }
  split; [done|].
  apply discover_spec in Hd as [[-> _]|(t' & _ & -> & _)];
    [done|done|by apply list_for_principal_unused].
Qed.

End Discovery.

(** X14, at the sample engine: the verdict it returns without a token id
    is an allowance. *)
Lemma X14_discovery_finds_valid_token_witness :
  let tid := token_id sample_signed_token in
  let v : Verdict := (true, MsgValid tid "fs.delete", "ALLOW_PCCAP_VALID") in
  evaluate_request sample_mac sample_engine (sample_request None)
  = Ok (v, with_store sample_engine (consumed tid (_store sample_engine)))
  /\ fst (fst v) = true /\ snd v = "ALLOW_PCCAP_VALID".
Proof.
  cbv zeta.
  assert (Hrun : evaluate_with_pccap sample_mac (fun _ => 1001) "/home/agent"
                   sample_engine agent "fs.delete"
                   [("path", PyStr "/tmp/scratch/file.txt")] None
                 = Ok ((true, MsgValid (token_id sample_signed_token) "fs.delete",
                        "ALLOW_PCCAP_VALID"),
                       with_store sample_engine
                         (consumed (token_id sample_signed_token)
                            (_store sample_engine))))
    by (vm_compute; reflexivity).
  split; [exact Hrun|].
  apply (X14_discovery_finds_valid_token sample_mac (fun _ => 1001) "/home/agent"
           sample_engine agent "fs.delete"
           [("path", PyStr "/tmp/scratch/file.txt")]
           (token_id sample_signed_token) sample_signed_token None) in Hrun.
  - exact Hrun.
  - by left.
  - intros _. reflexivity.
  - vm_compute. reflexivity.
  - reflexivity.
  - vm_compute. reflexivity.
  - reflexivity.
Defined.

(** ** Errors of signing, verification and enforcement *)

Module JsonFacts.







End JsonFacts.



(** ** Token ids *)

Module TokenIdFacts.

Import PyStr Base64.

Lemma alphabet_ord n :
  ord (alphabet n)
  = (if n <? 26 then 65 + n
     else if n <? 52 then 97 + (n - 26)
     else if n <? 62 then 48 + (n - 52)
     else if n =? 62 then 43 else 47)%N.
Proof.
  unfold alphabet. apply Base64Facts.ord_ascii_of_N.
  destruct (N.ltb_spec n 26); [lia|].
  destruct (N.ltb_spec n 52); [lia|].
  destruct (N.ltb_spec n 62); [lia|].
  destruct (n =? 62)%N; lia.
Qed.

Lemma alphabet_not_equals n : Ascii.eqb (alphabet n) equals_sign = false.
Proof.
  apply Ascii.eqb_neq. intros H. apply (f_equal ord) in H.
  rewrite alphabet_ord in H. change (ord equals_sign) with 61%N in H.
  destruct (N.ltb_spec n 26); [lia|].
  destruct (N.ltb_spec n 52); [lia|].
  destruct (N.ltb_spec n 62); [lia|].
  destruct (n =? 62)%N; lia.
Qed.

Lemma alphabet_inj x y :
  (x < 64)%N -> (y < 64)%N -> alphabet x = alphabet y -> x = y.
Proof.
  intros Hx Hy H. apply (f_equal ord) in H. rewrite !alphabet_ord in H.
  destruct (N.ltb_spec x 26), (N.ltb_spec y 26); try lia;
  destruct (N.ltb_spec x 52), (N.ltb_spec y 52); try lia;
  destruct (N.ltb_spec x 62), (N.ltb_spec y 62); try lia;
  destruct (N.eqb_spec x 62), (N.eqb_spec y 62); lia.
Qed.

Lemma rstrip_cons c s :
  Ascii.eqb c equals_sign = false -> rstrip_eq (String c s) = String c (rstrip_eq s).
Proof.
  intros H. cbn [rstrip_eq]. fold equals_sign. rewrite H.
  by destruct (rstrip_eq s).
Qed.

Lemma contains_cons c s :
  Ascii.eqb c equals_sign = false -> contains equals_sign (String c s) = contains equals_sign s.
Proof. intros H. cbn [contains]. by rewrite H. Qed.

(** The encoding without its padding holds no [=]. *)
Lemma stripped_no_equals s : contains equals_sign (rstrip_eq (b64encode s)) = false.
Proof.
  induction s as [|a|a b|a b c rest IH] using Base64Facts.by_threes;
    cbn [b64encode]; cbv zeta;
    rewrite ?rstrip_cons, ?contains_cons by apply alphabet_not_equals;
    try done.
Qed.

Lemma ord_lt c : (ord c < 256)%N.
Proof. apply N_ascii_bounded. Qed.

Lemma ord_inj c c' : ord c = ord c' -> c = c'.
Proof.
  intros H. rewrite <- (ascii_N_embedding c), <- (ascii_N_embedding c').
  unfold ord in H. by rewrite H.
Qed.

Lemma sextets_inj n n' :
  (n < 16777216)%N -> (n' < 16777216)%N ->
  alphabet (n / 262144) = alphabet (n' / 262144) ->
  alphabet ((n / 4096) mod 64) = alphabet ((n' / 4096) mod 64) ->
  alphabet ((n / 64) mod 64) = alphabet ((n' / 64) mod 64) ->
  alphabet (n mod 64) = alphabet (n' mod 64) ->
  n = n'.
Proof.
  intros Hn Hn' H1 H2 H3 H4.
  assert (forall m, (m mod 64 < 64)%N) as Hmod by (intros m; apply N.mod_lt; lia).
  assert (forall m, (m < 16777216 -> m / 262144 < 64)%N) as Hdiv.
  { intros m Hm. apply N.Div0.div_lt_upper_bound. lia. }
  apply alphabet_inj in H1, H2, H3, H4; auto.
  pose proof (N.div_mod n 64 ltac:(lia)).
  pose proof (N.div_mod n' 64 ltac:(lia)).
  pose proof (N.div_mod (n / 64) 64 ltac:(lia)).
  pose proof (N.div_mod (n' / 64) 64 ltac:(lia)).
  pose proof (N.div_mod (n / 4096) 64 ltac:(lia)).
  pose proof (N.div_mod (n' / 4096) 64 ltac:(lia)).
  assert (n / 64 / 64 = n / 4096)%N by (by rewrite N.Div0.div_div).
  assert (n' / 64 / 64 = n' / 4096)%N by (by rewrite N.Div0.div_div).
  assert (n / 4096 / 64 = n / 262144)%N by (by rewrite N.Div0.div_div).
  assert (n' / 4096 / 64 = n' / 262144)%N by (by rewrite N.Div0.div_div).
  lia.
Qed.

(** Four characters of the encoding determine the three bytes they stand
    for. *)
Lemma block_inj a b c a' b' c' :
  let n := (ord a * 65536 + ord b * 256 + ord c)%N in
  let n' := (ord a' * 65536 + ord b' * 256 + ord c')%N in
  alphabet (n / 262144) = alphabet (n' / 262144) ->
  alphabet ((n / 4096) mod 64) = alphabet ((n' / 4096) mod 64) ->
  alphabet ((n / 64) mod 64) = alphabet ((n' / 64) mod 64) ->
  alphabet (n mod 64) = alphabet (n' mod 64) ->
  a = a' /\ b = b' /\ c = c'.
Proof.
  cbv zeta. intros H1 H2 H3 H4.
  pose proof (ord_lt a). pose proof (ord_lt b). pose proof (ord_lt c).
  pose proof (ord_lt a'). pose proof (ord_lt b'). pose proof (ord_lt c').
  assert (ord a * 65536 + ord b * 256 + ord c
          = ord a' * 65536 + ord b' * 256 + ord c')%N as Hn
    by (apply sextets_inj; try done; lia).
  repeat split; apply ord_inj; lia.
Qed.

End TokenIdFacts.

Lemma twelve_bytes (r : string) :
  String.length r = 12%nat ->
  exists a1 a2 a3 b1 b2 b3 c1 c2 c3 d1 d2 d3,
    r = String a1 (String a2 (String a3 (String b1 (String b2 (String b3
        (String c1 (String c2 (String c3 (String d1 (String d2 (String d3
        EmptyString))))))))))).
Proof.
  intros H.
  do 12 (destruct r as [|? r]; [discriminate H|]).
  destruct r; [|discriminate H]. by repeat eexists.
Qed.

Lemma generate_token_id_unpadded (r : string) :
  String.length r = 12%nat ->
  generate_token_id r = "pccap_" ++ Base64.b64encode r
  /\ String.length (generate_token_id r) = 22%nat.
Proof.
  intros H. apply twelve_bytes in H.
  destruct H as (a1 & a2 & a3 & b1 & b2 & b3 & c1 & c2 & c3 & d1 & d2 & d3 & ->).
  unfold generate_token_id. cbn [Base64.b64encode]. cbv zeta.
  rewrite !TokenIdFacts.rstrip_cons by apply TokenIdFacts.alphabet_not_equals.
  split; reflexivity.
Qed.

(** X16: [generate_token_id] returns ["pccap_"] followed by the Base64
    text of the random bytes without its padding, so an id starts with
    ["pccap_"], is never the empty string and holds no [=]; for the twelve
    bytes that [os.urandom(12)] yields nothing is stripped, the id has 22
    characters, and two different readings give two different ids. *)
Theorem X16_generate_token_id_shape (r : string) :
  PyStr.startswith "pccap_" (generate_token_id r) = true
  /\ generate_token_id r <> ""
  /\ PyStr.contains equals_sign (generate_token_id r) = false
  /\ (String.length r = 12%nat ->
      generate_token_id r = "pccap_" ++ Base64.b64encode r
      /\ String.length (generate_token_id r) = 22%nat)
  /\ (forall r', String.length r = 12%nat -> String.length r' = 12%nat ->
      generate_token_id r = generate_token_id r' -> r = r').
Proof.
  split; [reflexivity|]. split; [discriminate|].
  split.
  { unfold generate_token_id.
    change (PyStr.contains equals_sign
              ("pccap_" ++ PyStr.rstrip_eq (Base64.b64encode r)))
      with (PyStr.contains equals_sign (PyStr.rstrip_eq (Base64.b64encode r))).
    apply TokenIdFacts.stripped_no_equals. }
  split; [apply generate_token_id_unpadded|].
  intros r' Hr Hr' Heq.
  rewrite (proj1 (generate_token_id_unpadded r Hr)) in Heq.
  rewrite (proj1 (generate_token_id_unpadded r' Hr')) in Heq.
  apply twelve_bytes in Hr, Hr'.
  destruct Hr as (a1 & a2 & a3 & b1 & b2 & b3 & c1 & c2 & c3 & d1 & d2 & d3 & ->).
  destruct Hr' as (a1' & a2' & a3' & b1' & b2' & b3' & c1' & c2' & c3'
                   & d1' & d2' & d3' & ->).
  cbn [Base64.b64encode] in Heq. cbv zeta in Heq.
  injection Heq as A1 A2 A3 A4 B1 B2 B3 B4 C1 C2 C3 C4 D1 D2 D3 D4.
  destruct (TokenIdFacts.block_inj _ _ _ _ _ _ A1 A2 A3 A4) as (-> & -> & ->).
  destruct (TokenIdFacts.block_inj _ _ _ _ _ _ B1 B2 B3 B4) as (-> & -> & ->).
  destruct (TokenIdFacts.block_inj _ _ _ _ _ _ C1 C2 C3 C4) as (-> & -> & ->).
  destruct (TokenIdFacts.block_inj _ _ _ _ _ _ D1 D2 D3 D4) as (-> & -> & ->).
  reflexivity.
Qed.

(** ** [normpath] of a normal path *)

Module NormpathFacts.

Import PyStr PosixPath PathFacts.










End NormpathFacts.

(** ** Tokens for [fs.delete] *)


Section FsDelete.

Variable hmac_sha256 : string -> string -> N.


End FsDelete.



(** ** [to_dict] and [from_dict] *)

Lemma as_args_of_args d : as_args (obj_of_args d) = Some d.
Proof.
  unfold as_args, obj_of_args.
  induction d as [|[k v] d IH]; [done|]. cbn [List.map fst snd as_values].
  by rewrite IH.
Qed.

Lemma as_opt_str_of o : as_opt_str (obj_of_opt_str o) = Some o.
Proof. by destruct o. Qed.

Lemma as_opt_int_of o : as_opt_int (obj_of_opt_int o) = Some o.
Proof. by destruct o. Qed.

Lemma scope_round_trip s : PCCapScope_from_dict (PCCapScope_to_dict s) = Loaded (Some s).
Proof.
  destruct s as [tn aa pp mb]. unfold PCCapScope_to_dict, PCCapScope_from_dict.
  cbn [tool_name allowed_args path_prefix max_bytes].
  change (subscript _ "tool_name") with (@Loaded PyObj (OVal (PyStr tn))).
  cbn [mbind load_bind]. cbv zeta.
  change (get_default _ "allowed_args" _) with (obj_of_args aa).
  change (get_default _ "path_prefix" _) with (obj_of_opt_str pp).
  change (get_default _ "max_bytes" _) with (obj_of_opt_int mb).
  rewrite as_args_of_args, as_opt_str_of, as_opt_int_of. reflexivity.
Qed.

Lemma algorithm_round_trip a :
  SignatureAlgorithm_of (OVal (PyStr (algorithm_value a))) = Loaded a.
Proof. by destruct a. Qed.

(** X18: [from_dict] reads back what [to_dict] wrote.  A scope comes back
    as it was.  A token comes back as it was except for its signature: the
    empty signature comes back as [None], since [to_dict] writes no falsy
    signature, and nothing of the signature comes back from
    [to_dict(include_signature=False)]. *)
Theorem X18_to_dict_from_dict (s : PCCapScope) (t : PCCapToken) :
  PCCapScope_from_dict (PCCapScope_to_dict s) = Loaded (Some s)
  /\ PCCapToken_from_dict (PCCapToken_to_dict t false)
     = Loaded (Some (set_signature t None))
  /\ PCCapToken_from_dict (PCCapToken_to_dict t true)
     = Loaded (Some (set_signature t
                       (match signature t with
                        | Some sig => if String.eqb sig "" then None else Some sig
                        | None => None
                        end)))
  /\ (PCCapToken_from_dict (PCCapToken_to_dict t true) = Loaded (Some t)
      <-> signature t <> Some "").
Proof.
  split; [apply scope_round_trip|].
  assert (forall items extra,
            items = ([("token_id", OVal (PyStr (token_id t)));
                     ("principal_sub", OVal (PyStr (principal_sub t)));
                     ("scope", PCCapScope_to_dict (scope t));
                     ("issued_at", OVal (PyInt (issued_at t)));
                     ("expires_at", OVal (PyInt (expires_at t)));
                     ("issued_by", OVal (PyStr (issued_by t)));
                     ("policy_id", obj_of_opt_str (policy_id t));
                     ("single_use", OVal (PyBool (single_use t)));
                     ("nonce", obj_of_opt_str (nonce t));
                     ("algorithm", OVal (PyStr (algorithm_value (algorithm t))))]
                    ++ match extra with
                       | Some sig => [("signature", OVal (PyStr sig))]
                       | None => []
                       end)%list ->
            PCCapToken_from_dict (ODict items)
            = Loaded (Some (set_signature t extra))) as Hread.
  { intros items extra ->. unfold PCCapToken_from_dict.
    change (subscript _ "token_id") with (@Loaded PyObj (OVal (PyStr (token_id t)))).
    change (subscript _ "principal_sub")
      with (@Loaded PyObj (OVal (PyStr (principal_sub t)))).
    change (subscript _ "scope") with (@Loaded PyObj (PCCapScope_to_dict (scope t))).
    change (subscript _ "issued_at") with (@Loaded PyObj (OVal (PyInt (issued_at t)))).
    change (subscript _ "expires_at") with (@Loaded PyObj (OVal (PyInt (expires_at t)))).
    change (subscript _ "issued_by") with (@Loaded PyObj (OVal (PyStr (issued_by t)))).
    cbn [mbind load_bind]. rewrite scope_round_trip. cbn [mbind load_bind]. cbv zeta.
    change (get_default _ "policy_id" _) with (obj_of_opt_str (policy_id t)).
    change (get_default _ "single_use" _) with (OVal (PyBool (single_use t))).
    change (get_default _ "nonce" _) with (obj_of_opt_str (nonce t)).
    change (get_default _ "algorithm" _)
      with (OVal (PyStr (algorithm_value (algorithm t)))).
    rewrite algorithm_round_trip. cbn [mbind load_bind].
    rewrite !as_opt_str_of.
    assert (get_default
              (([("token_id", OVal (PyStr (token_id t)));
                ("principal_sub", OVal (PyStr (principal_sub t)));
                ("scope", PCCapScope_to_dict (scope t));
                ("issued_at", OVal (PyInt (issued_at t)));
                ("expires_at", OVal (PyInt (expires_at t)));
                ("issued_by", OVal (PyStr (issued_by t)));
                ("policy_id", obj_of_opt_str (policy_id t));
                ("single_use", OVal (PyBool (single_use t)));
                ("nonce", obj_of_opt_str (nonce t));
                ("algorithm", OVal (PyStr (algorithm_value (algorithm t))))]
               ++ match extra with
                  | Some sig => [("signature", OVal (PyStr sig))]
                  | None => []
                  end)%list) "signature" (OVal PyNone)
            = obj_of_opt_str extra) as -> by (by destruct extra).
    rewrite as_opt_str_of. reflexivity. }
  assert (PCCapToken_from_dict (PCCapToken_to_dict t false)
          = Loaded (Some (set_signature t None))) as Hfalse.
  { unfold PCCapToken_to_dict. cbv zeta.
    destruct (signature t); cbn [andb]; by apply (Hread _ None). }
  assert (PCCapToken_from_dict (PCCapToken_to_dict t true)
          = Loaded (Some (set_signature t
                            (match signature t with
                             | Some sig => if String.eqb sig "" then None else Some sig
                             | None => None
                             end)))) as Htrue.
  { unfold PCCapToken_to_dict. cbv zeta.
    destruct (signature t) as [sig|]; [|by apply (Hread _ None)].
    destruct (String.eqb sig ""); cbn [andb negb];
      [by apply (Hread _ None)|by apply (Hread _ (Some sig))]. }
  split; [exact Hfalse|]. split; [exact Htrue|].
  rewrite Htrue. destruct t as [? ? ? ? ? ? ? ? ? sg ?]. unfold set_signature.
  cbn [token_id principal_sub scope issued_at expires_at issued_by policy_id
       single_use nonce signature algorithm].
  destruct sg as [sig|]; [|split; [done|reflexivity]].
  destruct (String.eqb sig "") eqn:E.
  - apply String.eqb_eq in E. subst sig. split; [done|]. by intros [].
  - split; [|reflexivity]. intros _ [= ->]. done.
Qed.

Lemma get_default_absent items k default :
  Dict.get k items = None -> get_default items k default = default.
Proof. unfold get_default. by intros ->. Qed.

Lemma scope_from_dict_inv sd sc :
  PCCapScope_from_dict sd = Loaded (Some sc) ->
  exists sitems tn,
    sd = ODict sitems
    /\ Dict.get "tool_name" sitems = Some tn
    /\ as_str tn = Some (tool_name sc)
    /\ as_args (get_default sitems "allowed_args" (ODict [])) = Some (allowed_args sc)
    /\ as_opt_str (get_default sitems "path_prefix" (OVal PyNone))
       = Some (path_prefix sc)
    /\ as_opt_int (get_default sitems "max_bytes" (OVal PyNone))
       = Some (max_bytes sc).
Proof.
  destruct sd as [v|sitems]; [done|]. unfold PCCapScope_from_dict, subscript.
  destruct (Dict.get "tool_name" sitems) as [tn|] eqn:Htn; [|done].
  cbn [mbind load_bind]. cbv zeta. intros [= H]. exists sitems, tn.
  destruct (as_str tn) as [tn'|]; cbn [mbind option_bind] in H; [|done].
  destruct (as_args _) as [aa'|]; cbn [mbind option_bind] in H; [|done].
  destruct (as_opt_str _) as [pp'|]; cbn [mbind option_bind] in H; [|done].
  destruct (as_opt_int _) as [mb'|]; cbn [mbind option_bind] in H; [|done].
  injection H as <-. done.
Qed.

Lemma scope_from_dict_error sd :
  match PCCapScope_from_dict sd with
  | Loaded _ => exists sitems tn, sd = ODict sitems /\ Dict.get "tool_name" sitems = Some tn
  | KeyError k => k = "tool_name"
                  /\ exists sitems, sd = ODict sitems /\ Dict.get "tool_name" sitems = None
  | LoadTypeError => exists v, sd = OVal v
  | LoadValueError => False
  end.
Proof.
  destruct sd as [v|sitems]; [by exists v|]. unfold PCCapScope_from_dict, subscript.
  destruct (Dict.get "tool_name" sitems) as [tn|] eqn:Htn; cbn [mbind load_bind].
  - by exists sitems, tn.
  - split; [done|]. by exists sitems.
Qed.

Lemma algorithm_of_error v :
  SignatureAlgorithm_of v = LoadValueError
  <-> v <> OVal (PyStr "HS256") /\ v <> OVal (PyStr "Ed25519").
Proof.
  unfold SignatureAlgorithm_of. destruct v as [[| | |s| | |]|]; try by (split; [split|]).
  destruct (String.eqb s "HS256") eqn:E1.
  { apply String.eqb_eq in E1. subst s. split; [done|]. by intros [? _]. }
  destruct (String.eqb s "Ed25519") eqn:E2.
  { apply String.eqb_eq in E2. subst s. split; [done|]. by intros [_ ?]. }
  apply String.eqb_neq in E1, E2. split; [|done]. intros _.
  split; intros [= ->]; done.
Qed.

Lemma algorithm_of_cases v :
  (exists a, SignatureAlgorithm_of v = Loaded a) \/ SignatureAlgorithm_of v = LoadValueError.
Proof.
  unfold SignatureAlgorithm_of. destruct v as [[| | |s| | |]|]; try by right.
  destruct (String.eqb s "HS256"); [left; by eexists|].
  destruct (String.eqb s "Ed25519"); [left; by eexists|by right].
Qed.

Ltac required_reads items :=
  unfold PCCapToken_from_dict, subscript;
  destruct (Dict.get "token_id" items) as [tid|] eqn:Htid; cbn [mbind load_bind];
  [destruct (Dict.get "principal_sub" items) as [ps|] eqn:Hps; cbn [mbind load_bind];
   [destruct (Dict.get "scope" items) as [sd|] eqn:Hsd; cbn [mbind load_bind];
    [pose proof (scope_from_dict_error sd) as Hscope;
     destruct (PCCapScope_from_dict sd) as [sc|k0| |] eqn:Hsc; cbn [mbind load_bind];
     [destruct (Dict.get "issued_at" items) as [ia|] eqn:Hia; cbn [mbind load_bind];
      [destruct (Dict.get "expires_at" items) as [ea|] eqn:Hea; cbn [mbind load_bind];
       [destruct (Dict.get "issued_by" items) as [ib|] eqn:Hib; cbn [mbind load_bind];
        [cbv zeta;
         pose proof (algorithm_of_error
                       (get_default items "algorithm" (OVal (PyStr "HS256")))) as Hbad;
         destruct (algorithm_of_cases
                     (get_default items "algorithm" (OVal (PyStr "HS256"))))
           as [[alg Halg]|Halg]; rewrite Halg; cbn [mbind load_bind]
        |]|]|]| | |]|]|]|].

(** X19: what [PCCapToken.from_dict] raises and what it fills in.  A
    [KeyError] names one of the six keys that are read by subscript and is
    absent, or [tool_name] absent from the dict under [scope]; when one of
    the six is absent no token is built.  A [TypeError] arises exactly when the
    first two keys are present and the value under [scope] is no dict.  A
    [ValueError] comes from the algorithm name alone and only after every
    required key was found.  In a token that is built, an absent
    [single_use] reads as true, an absent [algorithm] as HS256, absent
    [policy_id], [nonce] and [signature] as [None], and in its scope an
    absent [allowed_args] as the empty dict, absent [path_prefix] and
    [max_bytes] as [None]. *)
Theorem X19_from_dict_errors_and_defaults (items : list (string * PyObj)) :
  let read := PCCapToken_from_dict (ODict items) in
  let required := ["token_id"; "principal_sub"; "scope"; "issued_at";
                   "expires_at"; "issued_by"] in
  (forall k, read = KeyError k ->
     (In k required /\ Dict.get k items = None)
     \/ (k = "tool_name"
         /\ exists sitems, Dict.get "scope" items = Some (ODict sitems)
                           /\ Dict.get "tool_name" sitems = None))
  /\ (forall k r, In k required -> Dict.get k items = None -> read <> Loaded r)
  /\ (read = LoadTypeError
      <-> Dict.get "token_id" items <> None
          /\ Dict.get "principal_sub" items <> None
          /\ exists v, Dict.get "scope" items = Some (OVal v))
  /\ (read = LoadValueError ->
      (forall k, In k required -> Dict.get k items <> None)
      /\ exists v, Dict.get "algorithm" items = Some v
                   /\ v <> OVal (PyStr "HS256") /\ v <> OVal (PyStr "Ed25519"))
  /\ (forall tok, read = Loaded (Some tok) ->
      (Dict.get "single_use" items = None -> single_use tok = true)
      /\ (Dict.get "algorithm" items = None -> algorithm tok = HMAC_SHA256)
      /\ (Dict.get "policy_id" items = None -> policy_id tok = None)
      /\ (Dict.get "nonce" items = None -> nonce tok = None)
      /\ (Dict.get "signature" items = None -> signature tok = None)
      /\ exists sitems,
           Dict.get "scope" items = Some (ODict sitems)
           /\ (Dict.get "allowed_args" sitems = None -> allowed_args (scope tok) = [])
           /\ (Dict.get "path_prefix" sitems = None -> path_prefix (scope tok) = None)
           /\ (Dict.get "max_bytes" sitems = None -> max_bytes (scope tok) = None)).
Proof.
  cbv zeta. split; [|split; [|split; [|split]]].
  - intros k. required_reads items; intros [= <-]; try (left; split; [cbn; tauto|done]).
    right. destruct Hscope as (-> & sitems & -> & Hno). split; [done|]. by exists sitems.
  - intros k r Hk Hnone.
    assert (Dict.get "token_id" items = None \/ Dict.get "principal_sub" items = None
            \/ Dict.get "scope" items = None \/ Dict.get "issued_at" items = None
            \/ Dict.get "expires_at" items = None \/ Dict.get "issued_by" items = None)
      as Hcase.
    { cbn in Hk. destruct Hk as [<-|[<-|[<-|[<-|[<-|[<-|[]]]]]]]; tauto. }
    clear Hk Hnone. revert Hcase.
    required_reads items; intros Hcase; try done;
      destruct Hcase as [?|[?|[?|[?|[?|?]]]]]; done.
  - split.
    + required_reads items; try done. intros _. destruct Hscope as [v ->].
      repeat split; try done. by exists v.
    + intros (H1 & H2 & v & H3). unfold PCCapToken_from_dict, subscript.
      destruct (Dict.get "token_id" items); [|done].
      destruct (Dict.get "principal_sub" items); [|done].
      rewrite H3. reflexivity.
  - required_reads items; try done. intros _. split.
    + intros k Hk. cbn in Hk.
      destruct Hk as [<-|[<-|[<-|[<-|[<-|[<-|[]]]]]]]; congruence.
    + apply Hbad in Halg. unfold get_default in Halg.
      destruct (Dict.get "algorithm" items) as [v|]; [by exists v|].
      by destruct Halg as [? _].
  - intros tok. required_reads items; try done. intros [= H].
    destruct sc as [sc|]; cycle 1.
    { destruct (as_str tid), (as_str ps); done. }
    apply scope_from_dict_inv in Hsc
      as (sitems & tn & -> & _ & _ & Haa & Hpp & Hmb).
    destruct (as_str tid) as [tid'|]; cbn [mbind option_bind] in H; [|done].
    destruct (as_str ps) as [ps'|]; cbn [mbind option_bind] in H; [|done].
    destruct (as_int ia) as [ia'|]; cbn [mbind option_bind] in H; [|done].
    destruct (as_int ea) as [ea'|]; cbn [mbind option_bind] in H; [|done].
    destruct (as_str ib) as [ib'|]; cbn [mbind option_bind] in H; [|done].
    destruct (as_opt_str (get_default items "policy_id" _)) as [pol'|] eqn:Hpol;
      cbn [mbind option_bind] in H; [|done].
    destruct (as_bool (get_default items "single_use" _)) as [once'|] eqn:Honce;
      cbn [mbind option_bind] in H; [|done].
    destruct (as_opt_str (get_default items "nonce" _)) as [non'|] eqn:Hnon;
      cbn [mbind option_bind] in H; [|done].
    destruct (as_opt_str (get_default items "signature" _)) as [sig'|] eqn:Hsig;
      cbn [mbind option_bind] in H; [|done].
    injection H as <-.
    cbn [single_use algorithm policy_id nonce signature scope].
    split. { intros Hn. rewrite (get_default_absent _ _ _ Hn) in Honce. by injection Honce. }
    split. { intros Hn. rewrite (get_default_absent _ _ _ Hn) in Halg.
             cbn in Halg. by injection Halg. }
    split. { intros Hn. rewrite (get_default_absent _ _ _ Hn) in Hpol. by injection Hpol. }
    split. { intros Hn. rewrite (get_default_absent _ _ _ Hn) in Hnon. by injection Hnon. }
    split. { intros Hn. rewrite (get_default_absent _ _ _ Hn) in Hsig. by injection Hsig. }
    exists sitems. split; [done|].
    split. { intros Hn. rewrite (get_default_absent _ _ _ Hn) in Haa. by injection Haa. }
    split. { intros Hn. rewrite (get_default_absent _ _ _ Hn) in Hpp. by injection Hpp. }
    intros Hn. rewrite (get_default_absent _ _ _ Hn) in Hmb. by injection Hmb.
Qed.

(** ** The canonical bytes as the JSON text of [to_dict] *)

Lemma str_app_assoc (a b c : string) : (a ++ b) ++ c = a ++ (b ++ c).
Proof.
  induction a as [|x a IH]; [done|].
  change (String x ((a ++ b) ++ c) = String x (a ++ (b ++ c))). by rewrite IH.
Qed.

Lemma dumps_dict items :
  dumps (ODict items)
  = body ← members (sort_by_key (List.map (fun kv => (fst kv, dumps (snd kv))) items));
    Ok ("{" ++ body ++ "}").
Proof.
  cbn [dumps]. do 3 f_equal.
  induction items as [|[k v] rest IH]; [done|]. cbn [List.map fst snd]. by rewrite IH.
Qed.

Lemma insert_by_key_map {V W : Type} (h : V -> W) kv (acc : list (string * V)) :
  insert_by_key (fst kv, h (snd kv)) (List.map (fun kv => (fst kv, h (snd kv))) acc)
  = List.map (fun kv => (fst kv, h (snd kv))) (insert_by_key kv acc).
Proof.
  induction acc as [|kv' acc IH]; [done|]. cbn [List.map insert_by_key fst snd].
  destruct (String.ltb (fst kv') (fst kv) || String.eqb (fst kv') (fst kv));
    cbn [List.map fst snd]; [by rewrite IH|done].
Qed.

Lemma sort_by_key_map {V W : Type} (h : V -> W) (l : list (string * V)) :
  sort_by_key (List.map (fun kv => (fst kv, h (snd kv))) l)
  = List.map (fun kv => (fst kv, h (snd kv))) (sort_by_key l).
Proof.
  unfold sort_by_key.
  change (@nil (string * W))
    with (List.map (fun kv : string * V => (fst kv, h (snd kv))) []) at 1.
  generalize (@nil (string * V)) as acc.
  induction l as [|kv l IH]; intros acc; [done|]. cbn [List.map fold_left].
  by rewrite (insert_by_key_map h), IH.
Qed.

Lemma insert_sorted_by_key kv l : Json.insert_sorted kv l = insert_by_key kv l.
Proof.
  induction l as [|kv' l IH]; [done|]. cbn [Json.insert_sorted insert_by_key].
  by rewrite IH.
Qed.

Lemma sort_items_by_key d : Json.sort_items d = sort_by_key d.
Proof.
  unfold Json.sort_items, sort_by_key. generalize (@nil (string * PyVal)) as acc.
  induction d as [|kv d IH]; intros acc; [done|]. cbn [fold_left].
  by rewrite insert_sorted_by_key, IH.
Qed.

Lemma members_of_items l :
  members (List.map (fun kv => (fst kv, Json.of_val (snd kv))) l) = Json.of_items l.
Proof.
  induction l as [|[k v] l IH]; [done|]. cbn [List.map members Json.of_items fst snd].
  rewrite IH. destruct (Json.of_val v); [|done]. cbn [mbind result_bind].
  destruct (Json.of_items l); [|done]. cbn [mbind result_bind]. by destruct l.
Qed.

(** The JSON text of [allowed_args], taken as an object. *)
Lemma dumps_args d : dumps (obj_of_args d) = Json.of_dict d.
Proof.
  unfold obj_of_args, Json.of_dict. rewrite dumps_dict, List.map_map. cbn [fst snd].
  change (fun x : string * PyVal => (fst x, dumps (OVal (snd x))))
    with (fun x : string * PyVal => (fst x, Json.of_val (snd x))).
  by rewrite (sort_by_key_map Json.of_val), members_of_items, sort_items_by_key.
Qed.

Lemma dumps_opt_str o : dumps (obj_of_opt_str o) = Ok (Json.of_opt_str o).
Proof. by destruct o. Qed.

Lemma dumps_opt_int o : dumps (obj_of_opt_int o) = Ok (Json.of_opt_int o).
Proof. by destruct o. Qed.

Lemma dumps_scope s : dumps (PCCapScope_to_dict s) = scope_json s.
Proof.
  unfold PCCapScope_to_dict, scope_json. rewrite dumps_dict.
  cbn [List.map fst snd]. rewrite dumps_args, dumps_opt_str, dumps_opt_int.
  change (dumps (OVal (PyStr (tool_name s)))) with (Ok (Json.of_str (tool_name s))).
  assert (forall a b c d : result string,
            sort_by_key [("tool_name", a); ("allowed_args", b);
                         ("path_prefix", c); ("max_bytes", d)]
            = [("allowed_args", b); ("max_bytes", d);
               ("path_prefix", c); ("tool_name", a)]) as -> by reflexivity.
  cbn [members]. destruct (Json.of_dict (allowed_args s)) as [args|]; [|done].
  cbn [mbind result_bind]. f_equal.
  rewrite !str_app_assoc. reflexivity.
Qed.

(** X20: the canonical bytes of a token are the JSON text of
    [to_dict(include_signature=False)] with sorted keys and no blanks, with
    the scope written as the JSON text of its own [to_dict]; the ten keys
    come in the order algorithm, expires_at, issued_at, issued_by, nonce,
    policy_id, principal_sub, scope, single_use, token_id.  The signature
    is no part of them, whatever it is. *)
Theorem X20_canonical_bytes_of_to_dict (t : PCCapToken) :
  canonical_bytes t = dumps (PCCapToken_to_dict t false)
  /\ scope_json (scope t) = dumps (PCCapScope_to_dict (scope t))
  /\ (forall sig, dumps (PCCapToken_to_dict (set_signature t sig) false)
                  = canonical_bytes t).
Proof.
  assert (forall u, canonical_bytes u = dumps (PCCapToken_to_dict u false)) as H.
  { intros u. unfold canonical_bytes.
    assert (PCCapToken_to_dict u false
            = ODict [("token_id", OVal (PyStr (token_id u)));
                     ("principal_sub", OVal (PyStr (principal_sub u)));
                     ("scope", PCCapScope_to_dict (scope u));
                     ("issued_at", OVal (PyInt (issued_at u)));
                     ("expires_at", OVal (PyInt (expires_at u)));
                     ("issued_by", OVal (PyStr (issued_by u)));
                     ("policy_id", obj_of_opt_str (policy_id u));
                     ("single_use", OVal (PyBool (single_use u)));
                     ("nonce", obj_of_opt_str (nonce u));
                     ("algorithm", OVal (PyStr (algorithm_value (algorithm u))))])
      as -> by (unfold PCCapToken_to_dict; by destruct (signature u)).
    rewrite dumps_dict. cbn [List.map fst snd].
    rewrite dumps_scope, !dumps_opt_str.
    change (dumps (OVal (PyStr (token_id u)))) with (Ok (Json.of_str (token_id u))).
    change (dumps (OVal (PyStr (principal_sub u))))
      with (Ok (Json.of_str (principal_sub u))).
    change (dumps (OVal (PyStr (issued_by u)))) with (Ok (Json.of_str (issued_by u))).
    change (dumps (OVal (PyInt (issued_at u)))) with (Ok (PyStr.of_Z (issued_at u))).
    change (dumps (OVal (PyInt (expires_at u)))) with (Ok (PyStr.of_Z (expires_at u))).
    change (dumps (OVal (PyBool (single_use u))))
      with (Ok (Json.of_bool (single_use u))).
    change (dumps (OVal (PyStr (algorithm_value (algorithm u)))))
      with (Ok (Json.of_str (algorithm_value (algorithm u)))).
    assert (forall a b c d e f g h i j : result string,
              sort_by_key [("token_id", a); ("principal_sub", b); ("scope", c);
                           ("issued_at", d); ("expires_at", e); ("issued_by", f);
                           ("policy_id", g); ("single_use", h); ("nonce", i);
                           ("algorithm", j)]
              = [("algorithm", j); ("expires_at", e); ("issued_at", d);
                 ("issued_by", f); ("nonce", i); ("policy_id", g);
                 ("principal_sub", b); ("scope", c); ("single_use", h);
                 ("token_id", a)]) as -> by reflexivity.
    cbn [members mbind result_bind].
    destruct (scope_json (scope u)) as [sc|]; [|done].
    cbn [mbind result_bind]. f_equal.
    rewrite !str_app_assoc. reflexivity. }
  split; [apply H|]. split; [symmetry; apply dumps_scope|].
  intros sig. by rewrite <- H.
Qed.

(** ** Keyring *)

Module SignatureFacts.

Import PyStr Base64 TokenIdFacts.

Lemma length_app (a b : string) :
  String.length (a ++ b) = (String.length a + String.length b)%nat.
Proof.
  induction a as [|x a IH]; [done|].
  change (S (String.length (a ++ b)) = S (String.length a + String.length b)).
  by rewrite IH.
Qed.

Lemma length_bytes_of_N len : forall n, String.length (bytes_of_N len n) = len.
Proof.
  induction len as [|len IH]; intros n; [done|].
  cbn [bytes_of_N]. rewrite length_app, IH. cbn [String.length]. lia.
Qed.

Lemma b64encode_length s :
  String.length (b64encode s) = (4 * ((String.length s + 2) / 3))%nat.
Proof.
  induction s as [|a|a b|a b c rest IH] using Base64Facts.by_threes;
    try reflexivity.
  cbn [b64encode String.length]. cbv zeta. cbn [String.length]. rewrite IH.
  replace (S (S (S (String.length rest))) + 2)%nat
    with (1 * 3 + (String.length rest + 2))%nat by lia.
  rewrite Nat.div_add_l by lia. lia.
Qed.

(** Without its padding the encoding has one character for every six
    bits, rounded up. *)
Lemma stripped_length s :
  String.length (rstrip_eq (b64encode s)) = ((4 * String.length s + 2) / 3)%nat.
Proof.
  induction s as [|a|a b|a b c rest IH] using Base64Facts.by_threes.
  - reflexivity.
  - cbn [b64encode]. cbv zeta.
    rewrite !rstrip_cons by apply alphabet_not_equals. reflexivity.
  - cbn [b64encode]. cbv zeta.
    rewrite !rstrip_cons by apply alphabet_not_equals. reflexivity.
  - cbn [b64encode]. cbv zeta.
    rewrite !rstrip_cons by apply alphabet_not_equals.
    cbn [String.length]. rewrite IH.
    replace (4 * S (S (S (String.length rest))) + 2)%nat
      with (4 * 3 + (4 * String.length rest + 2))%nat by lia.
    rewrite Nat.div_add_l by lia. lia.
Qed.

Lemma sextets_inj3 n n' :
  (n < 16777216)%N -> (n' < 16777216)%N ->
  alphabet (n / 262144) = alphabet (n' / 262144) ->
  alphabet ((n / 4096) mod 64) = alphabet ((n' / 4096) mod 64) ->
  alphabet ((n / 64) mod 64) = alphabet ((n' / 64) mod 64) ->
  (n / 64 = n' / 64)%N.
Proof.
  intros Hn Hn' H1 H2 H3.
  assert (forall m, (m mod 64 < 64)%N) as Hmod by (intros m; apply N.mod_lt; lia).
  assert (forall m, (m < 16777216 -> m / 262144 < 64)%N) as Hdiv.
  { intros m Hm. apply N.Div0.div_lt_upper_bound. lia. }
  apply alphabet_inj in H1, H2, H3; auto.
  pose proof (N.div_mod (n / 64) 64 ltac:(lia)).
  pose proof (N.div_mod (n' / 64) 64 ltac:(lia)).
  pose proof (N.div_mod (n / 4096) 64 ltac:(lia)).
  pose proof (N.div_mod (n' / 4096) 64 ltac:(lia)).
  assert (n / 64 / 64 = n / 4096)%N by (by rewrite N.Div0.div_div).
  assert (n' / 64 / 64 = n' / 4096)%N by (by rewrite N.Div0.div_div).
  assert (n / 4096 / 64 = n / 262144)%N by (by rewrite N.Div0.div_div).
  assert (n' / 4096 / 64 = n' / 262144)%N by (by rewrite N.Div0.div_div).
  lia.
Qed.

Lemma sextets_inj2 n n' :
  (n < 16777216)%N -> (n' < 16777216)%N ->
  alphabet (n / 262144) = alphabet (n' / 262144) ->
  alphabet ((n / 4096) mod 64) = alphabet ((n' / 4096) mod 64) ->
  (n / 4096 = n' / 4096)%N.
Proof.
  intros Hn Hn' H1 H2.
  assert (forall m, (m mod 64 < 64)%N) as Hmod by (intros m; apply N.mod_lt; lia).
  assert (forall m, (m < 16777216 -> m / 262144 < 64)%N) as Hdiv.
  { intros m Hm. apply N.Div0.div_lt_upper_bound. lia. }
  apply alphabet_inj in H1, H2; auto.
  pose proof (N.div_mod (n / 4096) 64 ltac:(lia)).
  pose proof (N.div_mod (n' / 4096) 64 ltac:(lia)).
  assert (n / 4096 / 64 = n / 262144)%N by (by rewrite N.Div0.div_div).
  assert (n' / 4096 / 64 = n' / 262144)%N by (by rewrite N.Div0.div_div).
  lia.
Qed.

Lemma one_byte_inj a a' :
  let n := (ord a * 65536)%N in
  let n' := (ord a' * 65536)%N in
  alphabet (n / 262144) = alphabet (n' / 262144) ->
  alphabet ((n / 4096) mod 64) = alphabet ((n' / 4096) mod 64) ->
  a = a'.
Proof.
  cbv zeta. intros H1 H2. pose proof (ord_lt a). pose proof (ord_lt a').
  assert (ord a * 65536 < 16777216)%N as Hn by lia.
  assert (ord a' * 65536 < 16777216)%N as Hn' by lia.
  pose proof (sextets_inj2 _ _ Hn Hn' H1 H2) as Hq.
  replace (ord a * 65536)%N with (ord a * 16 * 4096)%N in Hq by lia.
  replace (ord a' * 65536)%N with (ord a' * 16 * 4096)%N in Hq by lia.
  rewrite !N.div_mul in Hq by lia. apply ord_inj. lia.
Qed.

Lemma two_bytes_inj a b a' b' :
  let n := (ord a * 65536 + ord b * 256)%N in
  let n' := (ord a' * 65536 + ord b' * 256)%N in
  alphabet (n / 262144) = alphabet (n' / 262144) ->
  alphabet ((n / 4096) mod 64) = alphabet ((n' / 4096) mod 64) ->
  alphabet ((n / 64) mod 64) = alphabet ((n' / 64) mod 64) ->
  a = a' /\ b = b'.
Proof.
  cbv zeta. intros H1 H2 H3.
  pose proof (ord_lt a). pose proof (ord_lt a').
  pose proof (ord_lt b). pose proof (ord_lt b').
  assert (ord a * 65536 + ord b * 256 < 16777216)%N as Hn by lia.
  assert (ord a' * 65536 + ord b' * 256 < 16777216)%N as Hn' by lia.
  pose proof (sextets_inj3 _ _ Hn Hn' H1 H2 H3) as Hq.
  replace (ord a * 65536 + ord b * 256)%N
    with ((ord a * 1024 + ord b * 4) * 64)%N in Hq by lia.
  replace (ord a' * 65536 + ord b' * 256)%N
    with ((ord a' * 1024 + ord b' * 4) * 64)%N in Hq by lia.
  rewrite !N.div_mul in Hq by lia. split; apply ord_inj; lia.
Qed.

(** The encoding loses nothing. *)
Lemma b64encode_inj s : forall s', b64encode s = b64encode s' -> s = s'.
Proof.
  pose proof alphabet_not_equals as Hne.
  assert (forall n, alphabet n <> equals_sign) as Hne'.
  { intros n E. specialize (Hne n). rewrite E in Hne. by rewrite Ascii.eqb_refl in Hne. }
  induction s as [|a|a b|a b c rest IH] using Base64Facts.by_threes;
    intros [|a' [|b' [|c' rest']]]; cbn [b64encode]; cbv zeta; try done.
  - intros [= H1 H2]. by rewrite (one_byte_inj _ _ H1 H2).
  - intros [= _ _ H]. symmetry in H. by apply Hne' in H.
  - intros [= _ _ H]. symmetry in H. by apply Hne' in H.
  - intros [= _ _ H]. by apply Hne' in H.
  - intros [= H1 H2 H3]. by destruct (two_bytes_inj _ _ _ _ H1 H2 H3) as [-> ->].
  - intros [= _ _ _ H]. symmetry in H. by apply Hne' in H.
  - intros [= _ _ H]. by apply Hne' in H.
  - intros [= _ _ _ H]. by apply Hne' in H.
  - intros [= H1 H2 H3 H4 H].
    destruct (block_inj _ _ _ _ _ _ H1 H2 H3 H4) as (-> & -> & ->).
    by rewrite (IH _ H).
Qed.

End SignatureFacts.

Lemma sign_inv (hmac_sha256 : string -> string -> N) keyring t s :
  sign hmac_sha256 keyring t = Ok s ->
  exists msg, canonical_bytes t = Ok msg
              /\ s = Base64.b64encode (digest hmac_sha256 (_secret keyring) msg).
Proof.
  unfold sign. destruct (canonical_bytes t) as [msg|];
    unfold mbind, result_bind; [|done].
  intros H. exists msg. split; [done|].
  apply (f_equal (fun r => match r with Ok x => x | Raise _ => s end)) in H.
  cbv beta iota in H. by subst s.
Qed.

(** X21: a keyring made without a key, or with the empty key, holds the
    random bytes; any other key is held as given.  A signature is the Base64
    text of the 32-byte MAC of the canonical bytes: 44 ASCII characters, the
    last one the only padding.  The encoding loses nothing, so two signatures
    are equal exactly when the two MACs are, and a token signed by one keyring
    verifies under another exactly when both give its canonical bytes the
    same MAC. *)
Theorem X21_keyring_signatures (hmac_sha256 : string -> string -> N)
    (keyring : Keyring) (t : PCCapToken) :
  (forall r, Keyring_init None r = {| _secret := r |}
             /\ Keyring_init (Some "") r = {| _secret := r |})
  /\ (forall k r, k <> "" -> Keyring_init (Some k) r = {| _secret := k |})
  /\ (forall s, sign hmac_sha256 keyring t = Ok s ->
        String.length s = 44%nat
        /\ String.length (PyStr.rstrip_eq s) = 43%nat
        /\ is_ascii s = true)
  /\ (forall keyring' t' s s' msg msg',
        canonical_bytes t = Ok msg -> canonical_bytes t' = Ok msg' ->
        sign hmac_sha256 keyring t = Ok s ->
        sign hmac_sha256 keyring' t' = Ok s' ->
        (s = s' <-> digest hmac_sha256 (_secret keyring) msg
                    = digest hmac_sha256 (_secret keyring') msg'))
  /\ (forall keyring' s msg,
        canonical_bytes t = Ok msg ->
        sign hmac_sha256 keyring t = Ok s ->
        (verify hmac_sha256 keyring' (set_signature t (Some s)) = Ok true
         <-> digest hmac_sha256 (_secret keyring') msg
             = digest hmac_sha256 (_secret keyring) msg)).
Proof.
  assert (forall keyring' t' s s' msg msg',
            canonical_bytes t = Ok msg -> canonical_bytes t' = Ok msg' ->
            sign hmac_sha256 keyring t = Ok s ->
            sign hmac_sha256 keyring' t' = Ok s' ->
            (s = s' <-> digest hmac_sha256 (_secret keyring) msg
                        = digest hmac_sha256 (_secret keyring') msg')) as Heq.
  { intros keyring' t' s s' msg msg' Hm Hm' Hs Hs'.
    apply sign_inv in Hs as (m & Hm1 & ->). apply sign_inv in Hs' as (m' & Hm1' & ->).
    assert (m = msg) as -> by congruence. assert (m' = msg') as -> by congruence.
    split; [apply SignatureFacts.b64encode_inj|by intros ->]. }
  split; [by split|]. split.
  { intros k r Hk. unfold Keyring_init. apply String.eqb_neq in Hk. by rewrite Hk. }
  split.
  { intros s Hs. pose proof (sign_shape _ _ _ _ Hs) as [_ Ha].
    apply sign_inv in Hs as (msg & _ & ->).
    rewrite SignatureFacts.b64encode_length, SignatureFacts.stripped_length.
    unfold digest. rewrite SignatureFacts.length_bytes_of_N. done. }
  split; [exact Heq|].
  intros keyring' s msg Hm Hs. rewrite verify_true_iff.
  cbn [set_signature signature]. rewrite sign_set_signature. split.
  - intros (s0 & [= <-] & Hs'). symmetry. by apply (Heq keyring' t s s msg msg).
  - intros Hd. exists s. split; [done|].
    unfold sign in *. rewrite Hm in *. unfold mbind, result_bind in *.
    by rewrite Hd.
Qed.
